(** * The structural indexer of [analyze_repo.py]

    A model of [src/analyze_repo.py] and the properties it has.

    The first part embeds the program: text extraction from syntax nodes
    ([get_node_text]), the per-file extractor ([parse_file_data]), the
    directory loop and the writer ([main]). The tree-sitter engine and
    the operating system (the file system and standard output) are the
    interfaces the program runs against ([TreeSitter], [FileSystem]);
    every call into them may raise. The
    Python built-ins the program calls ([str.strip], [bytes.strip],
    [bytes.decode], [os.path.join], [os.path.splitext], [set], [sorted],
    [dict], [json.dump]) follow CPython on a POSIX system. What the
    program prints is kept as a list of events, one constructor per
    [print]; a [print] that names a path raises when standard output
    cannot encode the path, and the exception leaves [main] where no
    [try] stands around it.

    The second part proves facts on the built-ins and on the loop, and
    the last part states the properties of the indexer. *)

From Stdlib Require Import Strings.String Strings.Ascii Strings.Byte NArith.
From stdpp Require Import base list sorting gmap.

Local Open Scope N_scope.

(** ** Python values *)

(** A [str] is a sequence of Unicode code points. *)
Abbreviation pystr := (list N).

(** A [bytes] object. *)
Abbreviation pybytes := (list byte).

(** Literals of the source are written through [py]. *)
Definition py (s : string) : pystr :=
  N_of_ascii <$> list_ascii_of_string s.

(** Exceptions carry their [type(e).__name__] and their [str(e)]. *)
Record exn := Exn { exn_type : pystr; exn_str : pystr }.

Inductive result (A : Type) : Type :=
| Ok (a : A)
| Raise (e : exn).
Arguments Ok {A} a.
Arguments Raise {A} e.

Definition is_ok {A} (r : result A) : bool :=
  match r with Ok _ => true | Raise _ => false end.

(** ** String comparison, [set], [sorted] *)

Module PyStr.

(** [a <= b] on [str]: lexicographic on code points, a proper prefix is
    smaller. *)
Fixpoint leb (a b : pystr) : bool :=
  match a, b with
  | [], _ => true
  | _ :: _, [] => false
  | x :: a', y :: b' =>
      if x <? y then true
      else if x =? y then leb a' b'
      else false
  end.

Definition le (a b : pystr) : Prop := leb a b = true.

#[global] Instance le_dec : RelDecision le.
Proof. intros a b. unfold le. apply _. Defined.

(** [s.strip(chars)]: drop from both ends every code point that is in
    [chars]. *)
Fixpoint lstrip (chars s : pystr) : pystr :=
  match s with
  | [] => []
  | c :: s' => if bool_decide (c ∈ chars) then lstrip chars s' else s
  end.

Definition rstrip (chars s : pystr) : pystr :=
  reverse (lstrip chars (reverse s)).

Definition strip (chars s : pystr) : pystr :=
  rstrip chars (lstrip chars s).

(** [s.startswith(c)], [s.endswith(c)] for a one-character [c]. *)
Definition startswith (c : N) (s : pystr) : bool :=
  match s with x :: _ => x =? c | [] => false end.

Definition endswith (c : N) (s : pystr) : bool :=
  startswith c (reverse s).

(** [s.rfind(c)] for a one-character [c]: the highest index holding
    [c], or [-1]. *)
Fixpoint rfind_from (c : N) (s : pystr) (i : Z) (found : Z) : Z :=
  match s with
  | [] => found
  | x :: s' => rfind_from c s' (i + 1)%Z (if x =? c then i else found)
  end.

Definition rfind (c : N) (s : pystr) : Z := rfind_from c s 0%Z (-1)%Z.

End PyStr.

(** [list(set(l))]: the members of [l], each once, in the iteration order
    of the set. *)
Definition py_set (l : list pystr) : gset pystr := list_to_set l.
Definition py_list (s : gset pystr) : list pystr := elements s.

(** [sorted(l)] on strings. *)
Definition sorted (l : list pystr) : list pystr := merge_sort PyStr.le l.

(** Line 67 of [parse_file_data]: [sorted(list(set(file_data[key])))]. *)
Definition normalize (l : list pystr) : list pystr :=
  sorted (py_list (py_set l)).


(** ** [bytes]: slicing, [strip], UTF-8 decoding *)

Module PyBytes.

(** [b[s:e]] for non-negative [s] and [e]: out-of-range bounds are
    clamped, and the slice is empty when [e <= s]. *)
Definition slice {A} (s e : nat) (l : list A) : list A :=
  take (e - s) (drop s l).

(** The bytes [bytes.strip()] removes: space, tab, line feed, carriage
    return, vertical tab, form feed. *)
Definition is_space (b : byte) : bool :=
  match b with
  | x20 | x09 | x0a | x0d | x0b | x0c => true
  | _ => false
  end.

Fixpoint lstrip (bs : pybytes) : pybytes :=
  match bs with
  | [] => []
  | b :: bs' => if is_space b then lstrip bs' else bs
  end.

Definition strip (bs : pybytes) : pybytes :=
  reverse (lstrip (reverse (lstrip bs))).

(** What the UTF-8 decoder finds at a position: a code point, or a
    subsequence of [len] bytes that is not the encoding of one. *)
Inductive decode_error := UnexpectedEnd | InvalidStart | InvalidContinuation.

Inductive scanned :=
| Char (c : N)
| Undecodable (why : decode_error) (len : nat).

Definition is_continuation (b : N) : bool := N.land b 0xC0 =? 0x80.

(** The decoding loop of CPython: one item per code point or per
    undecodable subsequence; after an undecodable subsequence of [len]
    bytes the scan resumes [len] bytes further. *)
Fixpoint utf8_scan (bs : pybytes) : list scanned :=
  match bs with
  | [] => []
  | b0 :: r0 =>
    let ch := Byte.to_N b0 in
    if ch <? 0x80 then Char ch :: utf8_scan r0
    else if ch <? 0xC2 then Undecodable InvalidStart 1 :: utf8_scan r0
    else if ch <? 0xE0 then
      match r0 with
      | [] => [Undecodable UnexpectedEnd 1]
      | b1 :: r1 =>
        let ch2 := Byte.to_N b1 in
        if negb (is_continuation ch2)
        then Undecodable InvalidContinuation 1 :: utf8_scan r0
        else Char (N.shiftl ch 6 + ch2 - (N.shiftl 0xC0 6 + 0x80))
             :: utf8_scan r1
      end
    else if ch <? 0xF0 then
      match r0 with
      | [] => [Undecodable UnexpectedEnd 1]
      | b1 :: r1 =>
        let ch2 := Byte.to_N b1 in
        if negb (is_continuation ch2)
           || (if ch2 <? 0xA0 then ch =? 0xE0 else ch =? 0xED)
        then Undecodable InvalidContinuation 1 :: utf8_scan r0
        else
          match r1 with
          | [] => [Undecodable UnexpectedEnd 2]
          | b2 :: r2 =>
            let ch3 := Byte.to_N b2 in
            if negb (is_continuation ch3)
            then Undecodable InvalidContinuation 2 :: utf8_scan r1
            else Char (N.shiftl ch 12 + N.shiftl ch2 6 + ch3
                       - (N.shiftl 0xE0 12 + N.shiftl 0x80 6 + 0x80))
                 :: utf8_scan r2
          end
      end
    else if ch <? 0xF5 then
      match r0 with
      | [] => [Undecodable UnexpectedEnd 1]
      | b1 :: r1 =>
        let ch2 := Byte.to_N b1 in
        if negb (is_continuation ch2)
           || (if ch2 <? 0x90 then ch =? 0xF0 else ch =? 0xF4)
        then Undecodable InvalidContinuation 1 :: utf8_scan r0
        else
          match r1 with
          | [] => [Undecodable UnexpectedEnd 2]
          | b2 :: r2 =>
            let ch3 := Byte.to_N b2 in
            if negb (is_continuation ch3)
            then Undecodable InvalidContinuation 2 :: utf8_scan r1
            else
              match r2 with
              | [] => [Undecodable UnexpectedEnd 3]
              | b3 :: r3 =>
                let ch4 := Byte.to_N b3 in
                if negb (is_continuation ch4)
                then Undecodable InvalidContinuation 3 :: utf8_scan r2
                else Char (N.shiftl ch 18 + N.shiftl ch2 12
                           + N.shiftl ch3 6 + ch4
                           - (N.shiftl 0xF0 18 + N.shiftl 0x80 12
                              + N.shiftl 0x80 6 + 0x80))
                     :: utf8_scan r3
              end
          end
      end
    else Undecodable InvalidStart 1 :: utf8_scan r0
  end.

(** The [errors] argument of [bytes.decode]. *)
Inductive error_handler := Strict | Ignore | Replace.

Definition decode_error_message (why : decode_error) : pystr :=
  match why with
  | UnexpectedEnd => py "unexpected end of data"
  | InvalidStart => py "invalid start byte"
  | InvalidContinuation => py "invalid continuation byte"
  end.

(** ['strict'] raises at the first undecodable subsequence, ['ignore']
    drops it, ['replace'] puts U+FFFD in its place. *)
Fixpoint handle (errors : error_handler) (items : list scanned)
  : result pystr :=
  match items with
  | [] => Ok []
  | Char c :: rest =>
    match handle errors rest with
    | Ok s => Ok (c :: s)
    | Raise e => Raise e
    end
  | Undecodable why _ :: rest =>
    match errors with
    | Strict => Raise (Exn (py "UnicodeDecodeError") (decode_error_message why))
    | Ignore => handle errors rest
    | Replace =>
      match handle errors rest with
      | Ok s => Ok (0xFFFD :: s)
      | Raise e => Raise e
      end
    end
  end.

(** [bs.decode('utf-8', errors=...)]. *)
Definition decode_utf8 (errors : error_handler) (bs : pybytes)
  : result pystr :=
  handle errors (utf8_scan bs).

End PyBytes.

(** ** [os.path] (POSIX) *)

Module OsPath.

Definition sep : N := 47.
Definition extsep : N := 46.

(** [os.path.join(a, b)]. *)
Definition join (a b : pystr) : pystr :=
  if PyStr.startswith sep b then b
  else if bool_decide (a = []) || PyStr.endswith sep a then a ++ b
  else a ++ sep :: b.

(** [os.path.splitext(p)]: the extension starts at the last dot, when
    that dot comes after the last separator and some character other
    than a dot stands between the two. *)
Definition splitext (p : pystr) : pystr * pystr :=
  let sepIndex := PyStr.rfind sep p in
  let dotIndex := PyStr.rfind extsep p in
  if (sepIndex <? dotIndex)%Z then
    let leading :=
      PyBytes.slice (Z.to_nat (sepIndex + 1)) (Z.to_nat dotIndex) p in
    if forallb (λ c, c =? extsep) leading then (p, [])
    else (take (Z.to_nat dotIndex) p, drop (Z.to_nat dotIndex) p)
  else (p, []).

End OsPath.

(** ** [dict]: keys in insertion order *)

Module Dict.

Abbreviation t V := (list (pystr * V)).

Fixpoint get {V} (k : pystr) (d : t V) : option V :=
  match d with
  | [] => None
  | (k', v) :: d' => if bool_decide (k' = k) then Some v else get k d'
  end.

(** [d[k] = v]: a key already present keeps its place. *)
Fixpoint set {V} (k : pystr) (v : V) (d : t V) : t V :=
  match d with
  | [] => [(k, v)]
  | (k', v') :: d' =>
    if bool_decide (k' = k) then (k, v) :: d' else (k', v') :: set k v d'
  end.

(** [del d[k]] for a key that is present. *)
Fixpoint del {V} (k : pystr) (d : t V) : t V :=
  match d with
  | [] => []
  | (k', v') :: d' =>
    if bool_decide (k' = k) then d' else (k', v') :: del k d'
  end.

Definition keys {V} (d : t V) : list pystr := d.*1.

(** [for k in d: d[k] = f(k)]. *)
Definition assign_all {V} (f : pystr → V) (d : t V) : t V :=
  (λ kv, (kv.1, f kv.1)) <$> d.

Definition map_values {V W} (f : V → W) (d : t V) : t W :=
  (λ kv, (kv.1, f kv.2)) <$> d.

End Dict.

(** ** [json.dump(obj, f, indent=4)] *)

(** The values a record holds: a list of strings, a string, or [None]. *)
Inductive value :=
| VList (l : list pystr)
| VStr (s : pystr)
| VNone.

Abbreviation entry := (Dict.t value).

Module Json.

Definition hex_digit (n : N) : N :=
  if n <? 10 then 48 + n else 87 + n.

(** ['\\u{0:04x}'.format(n)] *)
Definition u_escape (n : N) : pystr :=
  py "\u" ++ [hex_digit (N.land (N.shiftr n 12) 15);
              hex_digit (N.land (N.shiftr n 8) 15);
              hex_digit (N.land (N.shiftr n 4) 15);
              hex_digit (N.land n 15)].

(** The replacement of one character under [ensure_ascii=True]. *)
Definition escape_char (c : N) : pystr :=
  if c =? 92 then [92; 92]
  else if c =? 34 then [92; 34]
  else if c =? 8 then py "\b"
  else if c =? 12 then py "\f"
  else if c =? 10 then py "\n"
  else if c =? 13 then py "\r"
  else if c =? 9 then py "\t"
  else if (32 <=? c) && (c <=? 126) then [c]
  else if c <? 0x10000 then u_escape c
  else
    let n := c - 0x10000 in
    u_escape (N.lor 0xd800 (N.land (N.shiftr n 10) 0x3ff))
    ++ u_escape (N.lor 0xdc00 (N.land n 0x3ff)).

Definition encode_str (s : pystr) : pystr :=
  34 :: (s ≫= escape_char) ++ [34].

Definition newline_indent (level : nat) : pystr :=
  10 :: replicate (4 * level) 32.

Fixpoint join_chunks (separator : pystr) (chunks : list pystr) : pystr :=
  match chunks with
  | [] => []
  | [c] => c
  | c :: rest => c ++ separator ++ join_chunks separator rest
  end.

Definition encode_list (level : nat) (l : list pystr) : pystr :=
  match l with
  | [] => py "[]"
  | _ =>
    py "[" ++ newline_indent (S level)
    ++ join_chunks (py "," ++ newline_indent (S level)) (encode_str <$> l)
    ++ newline_indent level ++ py "]"
  end.

Definition encode_dict {V} (encode_item : nat → V → pystr)
    (level : nat) (d : Dict.t V) : pystr :=
  match d with
  | [] => py "{}"
  | _ =>
    py "{" ++ newline_indent (S level)
    ++ join_chunks (py "," ++ newline_indent (S level))
         ((λ kv, encode_str kv.1 ++ py ": " ++ encode_item (S level) kv.2)
            <$> d)
    ++ newline_indent level ++ py "}"
  end.

Definition encode_value (level : nat) (v : value) : pystr :=
  match v with
  | VList l => encode_list level l
  | VStr s => encode_str s
  | VNone => py "null"
  end.

(** The text [json.dump(repo_structure, f, indent=4)] writes; it holds
    ASCII characters only, so the file's bytes are its code points. *)
Definition dumps (repo_structure : Dict.t entry) : pystr :=
  encode_dict (encode_dict encode_value) 0 repo_structure.

End Json.

(** ** The tree-sitter engine, the file system and standard output *)

(** A syntax node, as far as the indexer reads it. *)
Record Node := { start_byte : nat; end_byte : nat }.

(** The calls made into [tree_sitter] and [tree_sitter_language_pack];
    each may raise. [query_captures q t] stands for
    [q.captures(t.root_node)]. *)
Class TreeSitter := {
  language : Type;
  parser : Type;
  tree : Type;
  query : Type;
  get_language : pystr → result language;
  get_parser : pystr → result parser;
  parser_parse : parser → pybytes → result tree;
  language_query : language → pystr → result query;
  query_captures : query → tree → result (Dict.t (list Node));
}.

(** The calls made into the operating system. [os_walk top] is the
    sequence of [(root, files)] that [os.walk(top)] yields (the directory
    names of each triple are not read); [write_text] returns the
    exception of a failed [open]/[json.dump], if any.

    [stdout_error p] is the exception that [print] raises on a line that
    names the path [p], if any: a [UnicodeEncodeError] when standard
    output cannot encode the path, as for a file name with a lone
    surrogate (which [os.walk] yields for a name that is not valid
    UTF-8) under a strict UTF-8 standard output. The fixed text of a
    line and the text of an exception are taken to be encodable, so
    that a [print] raises only through a path it names. *)
Record FileSystem := {
  path_exists : pystr → bool;
  os_walk : pystr → list (pystr * list pystr);
  read_bytes : pystr → result pybytes;
  write_text : pystr → pystr → option exn;
  stdout_error : pystr → option exn;
}.

(** What the program prints, one constructor per [print]. *)
Inductive event :=
| LoadingLanguages
| CppLoaded
| LoadError (e : exn)
| EnsureInstalled
| SrcDirNotFound
| AnalyzingRepo
| AnalyzingCpp (file_path : pystr)
| AnalyzingPython (file_path : pystr)
| EmptyFileSkipped (file_path : pystr)
| QueryError (data_key : pystr) (capture_names : list pystr) (e : exn)
| FileError (file_path : pystr) (e : exn)
| NoValidFiles
| Saved
| AnalyzedCount (file_count : nat)
| WriteError (e : exn).

(** ** Configuration *)

Definition SRC_DIR : pystr := py "./src".
Definition OUTPUT_JSON : pystr := py "./repo_structure.json".

Definition VALID_CPP_EXTENSIONS : gset pystr :=
  {[ py ".h"; py ".cpp"; py ".i" ]}.
Definition VALID_PYTHON_EXTENSIONS : gset pystr := {[ py ".py" ]}.

Definition CPP_INCLUDE_QUERY_STR : pystr := py "
(preproc_include path: (string_literal) @include_path)
(preproc_include path: (system_lib_string) @include_path)
".
Definition CPP_FUNCTION_QUERY_STR : pystr := py "
(function_definition declarator: (function_declarator declarator: (identifier) @function_name))
(function_definition declarator: (identifier) @function_name)
".
Definition CPP_CLASS_QUERY_STR : pystr := py "
(class_specifier name: (type_identifier) @class_name)
(struct_specifier name: (type_identifier) @class_name)
".
Definition PYTHON_IMPORT_QUERY_STR : pystr := py "
(import_statement name: (dotted_name (identifier) @module_part)) @import_statement
(import_from_statement module_name: (dotted_name (identifier) @module_part) name: (dotted_name (identifier) @name_part) @import_from_statement)
; We capture @module_part for simple imports, and both for from_imports.
; For from_imports, we might want to combine module_part and name_part later.
".
Definition PYTHON_FUNCTION_QUERY_STR : pystr :=
  py "(function_definition name: (identifier) @function_name)".
Definition PYTHON_CLASS_QUERY_STR : pystr :=
  py "(class_definition name: (identifier) @class_name)".

Record query_info := {
  query_string : pystr;
  capture_names : list pystr;
}.

Definition cpp_query_definitions : Dict.t query_info := [
  (py "includes", {| query_string := CPP_INCLUDE_QUERY_STR;
                     capture_names := [py "include_path"] |});
  (py "functions", {| query_string := CPP_FUNCTION_QUERY_STR;
                      capture_names := [py "function_name"] |});
  (py "classes", {| query_string := CPP_CLASS_QUERY_STR;
                    capture_names := [py "class_name"] |})
].

Definition python_query_definitions : Dict.t query_info := [
  (py "imports", {| query_string := PYTHON_IMPORT_QUERY_STR;
                    capture_names := [py "module_part"; py "name_part"] |});
  (py "functions", {| query_string := PYTHON_FUNCTION_QUERY_STR;
                      capture_names := [py "function_name"] |});
  (py "classes", {| query_string := PYTHON_CLASS_QUERY_STR;
                    capture_names := [py "class_name"] |})
].

(** The characters the [strip] of line 61 removes: double quote, [<]
    and [>]. *)
Definition path_delimiters : pystr := [34; 60; 62].

(** ** Helper functions *)

(** [content_bytes[node.start_byte:node.end_byte].decode('utf-8',
    errors='ignore')] *)
Definition get_node_text (node : Node) (content_bytes : pybytes)
  : result pystr :=
  PyBytes.decode_utf8 PyBytes.Ignore
    (PyBytes.slice (start_byte node) (end_byte node) content_bytes).

(** Lines 60-61: the special handling of paths. *)
Definition is_path_key (data_key : pystr) : bool :=
  bool_decide (data_key = py "includes")
  || bool_decide (data_key = py "imports").

(** Lines 58-62: the texts of the nodes of one capture are appended to
    the category list; the list built so far stays when a call raises. *)
Fixpoint add_nodes (data_key : pystr) (content_bytes : pybytes)
    (nodes : list Node) (acc : list pystr) : list pystr * option exn :=
  match nodes with
  | [] => (acc, None)
  | node :: rest =>
    match get_node_text node content_bytes with
    | Raise e => (acc, Some e)
    | Ok text_to_add =>
      let text_to_add :=
        if is_path_key data_key
        then PyStr.strip path_delimiters text_to_add
        else text_to_add in
      add_nodes data_key content_bytes rest (acc ++ [text_to_add])
    end
  end.

(** Lines 56-62: the loop over the capture names of a category. *)
Fixpoint add_captures (data_key : pystr) (content_bytes : pybytes)
    (captures_dict : Dict.t (list Node)) (names : list pystr)
    (acc : list pystr) : list pystr * option exn :=
  match names with
  | [] => (acc, None)
  | capture_name_in_query :: rest =>
    match Dict.get capture_name_in_query captures_dict with
    | None => add_captures data_key content_bytes captures_dict rest acc
    | Some nodes =>
      match add_nodes data_key content_bytes nodes acc with
      | (acc', Some e) => (acc', Some e)
      | (acc', None) =>
        add_captures data_key content_bytes captures_dict rest acc'
      end
    end
  end.

Section indexer.
Context {ts : TreeSitter}.

(** Lines 47-64, one round of the loop over the categories: the list
    collected for the category, and the exception the [try] caught, if
    any. A missing language object makes [lang_obj.query] raise. *)
Definition run_category (lang_obj : option language) (t : tree)
    (content_bytes : pybytes) (data_key : pystr) (info : query_info)
  : list pystr * option exn :=
  if bool_decide (query_string info = [])
     || bool_decide (capture_names info = [])
  then ([], None)
  else
    match lang_obj with
    | None =>
      ([], Some (Exn (py "AttributeError")
                     (py "'NoneType' object has no attribute 'query'")))
    | Some lang =>
      match language_query lang (query_string info) with
      | Raise e => ([], Some e)
      | Ok q =>
        match query_captures q t with
        | Raise e => ([], Some e)
        | Ok captures_dict =>
          add_captures data_key content_bytes captures_dict
            (capture_names info) []
        end
      end
    end.

Definition category_step (lang_obj : option language) (t : tree)
    (content_bytes : pybytes)
    (acc : list event * Dict.t (list pystr)) (kv : pystr * query_info)
  : list event * Dict.t (list pystr) :=
  let '(data_key, info) := kv in
  match run_category lang_obj t content_bytes data_key info with
  | (texts, None) => (acc.1, Dict.set data_key texts acc.2)
  | (texts, Some e) =>
    (acc.1 ++ [QueryError data_key (capture_names info) e],
     Dict.set data_key texts acc.2)
  end.

(** [parse_file_data]: what it prints, and the record it returns or the
    exception it lets through. *)
Definition parse_file_data (p : parser) (content_bytes : pybytes)
    (query_definitions : Dict.t query_info) (lang_obj : option language)
  : list event * result entry :=
  match parser_parse p content_bytes with
  | Raise e => ([], Raise e)
  | Ok t =>
    let '(log, file_data) :=
      foldl (category_step lang_obj t content_bytes) ([], [])
            query_definitions in
    (log, Ok (Dict.map_values (λ l, VList (normalize l)) file_data))
  end.

(** ** Main logic *)

Definition cpp_template : entry :=
  [(py "includes", VList []); (py "functions", VList []);
   (py "classes", VList []); (py "error", VNone)].

Definition python_template : entry :=
  [(py "imports", VList []); (py "functions", VList []);
   (py "classes", VList []); (py "error", VNone)].

(** Lines 143-145: the record of an empty file. *)
Definition empty_file_entry (output_data_template : entry) : entry :=
  let entry := Dict.set (py "error") (VStr (py "empty file"))
                 output_data_template in
  let entry := Dict.del (py "error") entry in
  Dict.assign_all
    (λ k, if bool_decide (k ≠ py "error") then VList []
          else VStr (py "empty file"))
    entry.

(** Lines 154-155: the record of a file whose analysis raised. *)
Definition failure_entry (output_data_template : entry) (e : exn) : entry :=
  let entry := Dict.set (py "error") (VStr (exn_str e))
                 output_data_template in
  Dict.assign_all
    (λ k, if bool_decide (k ≠ py "error") then VList []
          else VStr (exn_str e))
    entry.

Record profile := {
  current_parser : parser;
  current_query_definitions : Dict.t query_info;
  current_lang_obj : option language;
  output_data_template : entry;
  banner : pystr → event;
}.

(** Lines 79-80: the Python language and parser are not loaded. *)
Definition python_lang_obj : option language := None.
Definition python_parser : option parser := None.

(** Lines 123-135: the profile of an extension, or none ([continue]). *)
Definition select_profile (cpp_lang_obj : language) (cpp_parser : parser)
    (extension : pystr) : option profile :=
  if bool_decide (extension ∈ VALID_CPP_EXTENSIONS) then
    Some {| current_parser := cpp_parser;
            current_query_definitions := cpp_query_definitions;
            current_lang_obj := Some cpp_lang_obj;
            output_data_template := cpp_template;
            banner := AnalyzingCpp |}
  else if bool_decide (extension ∈ VALID_PYTHON_EXTENSIONS) then
    match python_parser with
    | Some py_parser =>
      Some {| current_parser := py_parser;
              current_query_definitions := python_query_definitions;
              current_lang_obj := python_lang_obj;
              output_data_template := python_template;
              banner := AnalyzingPython |}
    | None => None
    end
  else None.

(** The state of the two loops: the mapping, the count, what was
    printed, and the exception that has left the loops, if any. *)
Record state := {
  repo_structure : Dict.t entry;
  file_count : nat;
  stdout : list event;
  raised : option exn;
}.

Definition initial_state (log : list event) : state :=
  {| repo_structure := []; file_count := 0%nat; stdout := log;
     raised := None |}.

(** Lines 139-149: the body of the [try], up to the record it stores. *)
Definition try_analyze (fs : FileSystem) (pr : profile) (file_path : pystr)
  : list event * result entry :=
  match read_bytes fs file_path with
  | Raise e => ([], Raise e)
  | Ok content_bytes =>
    if bool_decide (PyBytes.strip content_bytes = []) then
      ([EmptyFileSkipped file_path],
       Ok (empty_file_entry (output_data_template pr)))
    else
      parse_file_data (current_parser pr) content_bytes
        (current_query_definitions pr) (current_lang_obj pr)
  end.

(** Lines 138-156: the record stored for a file, and what is printed.
    The lines of 142 and 153 name the path that the line of 127 has
    named, and no other: standard output has taken it by then, so
    these two prints do not raise. *)
Definition analyze_file (fs : FileSystem) (pr : profile) (file_path : pystr)
  : list event * entry :=
  match try_analyze fs pr file_path with
  | (log, Ok analysis_result) => (log, analysis_result)
  | (log, Raise e) =>
    (log ++ [FileError file_path e],
     failure_entry (output_data_template pr) e)
  end.

(** Lines 115-156: the body of the inner loop. The [print] of line 127
    names the path and stands outside the [try] of line 138: when it
    raises, nothing is counted or stored for the file and the exception
    leaves both loops, so that no later file is looked at. *)
Definition process_file (fs : FileSystem) (cpp_lang_obj : language)
    (cpp_parser : parser) (root : pystr) (st : state) (filename : pystr)
  : state :=
  match raised st with
  | Some _ => st
  | None =>
    let file_path := OsPath.join root filename in
    let extension := (OsPath.splitext filename).2 in
    match select_profile cpp_lang_obj cpp_parser extension with
    | None => st
    | Some pr =>
      match stdout_error fs file_path with
      | Some e =>
        {| repo_structure := repo_structure st;
           file_count := file_count st;
           stdout := stdout st;
           raised := Some e |}
      | None =>
        let '(log, record) := analyze_file fs pr file_path in
        {| repo_structure := Dict.set file_path record (repo_structure st);
           file_count := S (file_count st);
           stdout := stdout st ++ [banner pr file_path] ++ log;
           raised := None |}
      end
    end
  end.

(** Lines 113-156: the two nested loops. *)
Definition process_directory (fs : FileSystem) (cpp_lang_obj : language)
    (cpp_parser : parser) (st : state) (step : pystr * list pystr) : state :=
  foldl (process_file fs cpp_lang_obj cpp_parser step.1) st step.2.

Definition analyze (fs : FileSystem) (cpp_lang_obj : language)
    (cpp_parser : parser) (st : state) : state :=
  foldl (process_directory fs cpp_lang_obj cpp_parser) st
        (os_walk fs SRC_DIR).

(** What became of [OUTPUT_JSON]: the run never opened it, or it wrote
    the document, or writing the document raised. *)
Inductive output :=
| NotOpened
| Written (document : pystr)
| WriteFailed (document : pystr) (e : exn).

(** What a run leaves behind: what it printed, the output file, and the
    exception that left [main], if any. *)
Record run := {
  printed : list event;
  output_file : output;
  uncaught : option exn;
}.

(** The document of a run that wrote one. *)
Definition written (r : run) : option pystr :=
  match output_file r with
  | Written document => Some document
  | NotOpened | WriteFailed _ _ => None
  end.

(** Lines 73-89: loading the C++ language and parser. *)
Definition load_languages : result (language * parser) :=
  match get_language (py "cpp") with
  | Raise e => Raise e
  | Ok cpp_lang_obj =>
    match get_parser (py "cpp") with
    | Raise e => Raise e
    | Ok cpp_parser => Ok (cpp_lang_obj, cpp_parser)
    end
  end.

Definition main (fs : FileSystem) : run :=
  match load_languages with
  | Raise e =>
    {| printed := [LoadingLanguages; LoadError e; EnsureInstalled];
       output_file := NotOpened; uncaught := None |}
  | Ok (cpp_lang_obj, cpp_parser) =>
    if negb (path_exists fs SRC_DIR) then
      {| printed := [LoadingLanguages; CppLoaded; SrcDirNotFound];
         output_file := NotOpened; uncaught := None |}
    else
      let st := analyze fs cpp_lang_obj cpp_parser
                  (initial_state [LoadingLanguages; CppLoaded; AnalyzingRepo])
      in
      match raised st with
      | Some e =>
        {| printed := stdout st; output_file := NotOpened;
           uncaught := Some e |}
      | None =>
        match repo_structure st with
        | [] =>
          {| printed := stdout st ++ [NoValidFiles];
             output_file := NotOpened; uncaught := None |}
        | _ =>
          let document := Json.dumps (repo_structure st) in
          match write_text fs OUTPUT_JSON document with
          | None =>
            {| printed :=
                 stdout st ++ [Saved; AnalyzedCount (file_count st)];
               output_file := Written document; uncaught := None |}
          | Some e =>
            {| printed := stdout st ++ [WriteError e];
               output_file := WriteFailed document e; uncaught := None |}
          end
        end
      end
  end.

End indexer.

(** ** Vocabulary of the statements *)

(** The characters an extraction keeps: those of the decodable
    subsequences. *)
Definition kept_chars (items : list PyBytes.scanned) : pystr :=
  omap (λ i, match i with
             | PyBytes.Char c => Some c
             | PyBytes.Undecodable _ _ => None
             end) items.


(** The UTF-8 encoding of a text of Unicode scalar values (what
    [str.encode('utf-8')] gives), to state what a span of valid UTF-8
    decodes to. *)
Definition byte_of (n : N) : byte := default x00 (Byte.of_N n).

Definition utf8_encode_char (c : N) : pybytes :=
  if c <? 0x80 then [byte_of c]
  else if c <? 0x800 then
    [byte_of (0xC0 + c / 64); byte_of (0x80 + c mod 64)]
  else if c <? 0x10000 then
    [byte_of (0xE0 + c / 4096); byte_of (0x80 + (c / 64) mod 64);
     byte_of (0x80 + c mod 64)]
  else
    [byte_of (0xF0 + c / 262144); byte_of (0x80 + (c / 4096) mod 64);
     byte_of (0x80 + (c / 64) mod 64); byte_of (0x80 + c mod 64)].

Definition utf8_encode (s : pystr) : pybytes := s ≫= utf8_encode_char.

(** A Unicode scalar value: a code point that is not a surrogate. *)
Definition is_scalar (c : N) : Prop :=
  c < 0xD800 ∨ (0xE000 ≤ c ∧ c < 0x110000).

(** The text the extractor adds to a category for a node. *)
Definition added_text (data_key : pystr) (content_bytes : pybytes)
    (node : Node) : pystr :=
  let text :=
    kept_chars (PyBytes.utf8_scan
      (PyBytes.slice (start_byte node) (end_byte node) content_bytes)) in
  if is_path_key data_key then PyStr.strip path_delimiters text else text.


(** The lines printed inside the two loops. *)
Definition is_loop_event (ev : event) : bool :=
  match ev with
  | AnalyzingCpp _ | AnalyzingPython _ | EmptyFileSkipped _
  | QueryError _ _ _ | FileError _ _ => true
  | _ => false
  end.

(** An item of the scan that stands for an undecodable subsequence. *)
Definition is_undecodable (i : PyBytes.scanned) : bool :=
  match i with PyBytes.Char _ => false | PyBytes.Undecodable _ _ => true end.

(** The texts of all the captures named by a category, in order. *)
Definition captured_texts (data_key : pystr) (content_bytes : pybytes)
    (captures_dict : Dict.t (list Node)) (names : list pystr) : list pystr :=
  names ≫= (λ name, match Dict.get name captures_dict with
                    | Some nodes => added_text data_key content_bytes <$> nodes
                    | None => []
                    end).

(** The files of a walk, in the order the two loops visit them, and
    their paths. *)
Definition visited (walk : list (pystr * list pystr))
  : list (pystr * pystr) :=
  walk ≫= (λ step, (λ filename, (step.1, filename)) <$> step.2).

Definition visited_paths (walk : list (pystr * list pystr)) : list pystr :=
  (λ rf, OsPath.join rf.1 rf.2) <$> visited walk.

(** The file a printed line is about, if it names one. *)
Definition event_path (ev : event) : option pystr :=
  match ev with
  | AnalyzingCpp p | AnalyzingPython p | EmptyFileSkipped p | FileError p _ =>
    Some p
  | _ => None
  end.

(** The extension of a file name or path. *)
Definition extension_of (p : pystr) : pystr := (OsPath.splitext p).2.

(** The operating system [fs] seen through a standard output that can
    encode every path. *)
Definition lenient (fs : FileSystem) : FileSystem :=
  {| path_exists := path_exists fs;
     os_walk := os_walk fs;
     read_bytes := read_bytes fs;
     write_text := write_text fs;
     stdout_error := λ _, None |}.

Section vocabulary.
Context {ts : TreeSitter}.

(** The profile of the C++-like extensions. *)
Definition cpp_profile (cpp_lang_obj : language) (cpp_parser : parser)
  : profile :=
  {| current_parser := cpp_parser;
     current_query_definitions := cpp_query_definitions;
     current_lang_obj := Some cpp_lang_obj;
     output_data_template := cpp_template;
     banner := AnalyzingCpp |}.

(** The category lists [parse_file_data] collects for a C++-like file. *)
Definition collected (lang : language) (t : tree) (content_bytes : pybytes)
    (data_key : pystr) : list pystr :=
  match Dict.get data_key cpp_query_definitions with
  | Some info =>
    (run_category (Some lang) t content_bytes data_key info).1
  | None => []
  end.

(** The record the loop stores for the path of a C++-like file. *)
Definition record_of (fs : FileSystem) (cpp_lang_obj : language)
    (cpp_parser : parser) (file_path : pystr) : entry :=
  (analyze_file fs (cpp_profile cpp_lang_obj cpp_parser) file_path).2.

(** The state of the loops at line 158, from the empty mapping. *)
Definition walked (fs : FileSystem) (cpp_lang_obj : language)
    (cpp_parser : parser) : state :=
  analyze fs cpp_lang_obj cpp_parser
    (initial_state [LoadingLanguages; CppLoaded; AnalyzingRepo]).

(** The mapping a run builds, from the empty one: that of the loops
    when every [print] goes through, which is the mapping of every run
    that reaches line 158. *)
Definition index_of (fs : FileSystem) (cpp_lang_obj : language)
    (cpp_parser : parser) : Dict.t entry :=
  repo_structure (walked (lenient fs) cpp_lang_obj cpp_parser).

End vocabulary.

(** ** Small engines and trees to run the model on *)

Module Fixtures.

Definition bytes_of (s : string) : pybytes := list_byte_of_string s.

(** An engine that parses nothing: the tree is the content, a compiled
    query is its pattern, and the captures of each pattern are given by
    [captures]. Parsing raises on the contents [rejects] accepts. *)
Definition table_engine (rejects : pybytes → bool)
    (captures : pystr → pybytes → result (Dict.t (list Node)))
  : TreeSitter := {|
  language := unit;
  parser := unit;
  tree := pybytes;
  query := pystr;
  get_language := λ _, Ok tt;
  get_parser := λ _, Ok tt;
  parser_parse := λ _ content,
    if rejects content
    then Raise (Exn (py "ValueError") (py "parse failed"))
    else Ok content;
  language_query := λ _ pattern, Ok pattern;
  query_captures := captures;
|}.

(** An engine whose parser always raises and whose queries capture
    nothing. *)
Definition failing_parser_engine : TreeSitter :=
  table_engine (λ _, true) (λ _ _, Ok []).

(** An engine that captures nothing. *)
Definition silent_engine : TreeSitter :=
  table_engine (λ _, false) (λ _ _, Ok []).

(** A file system given by the sequence the walk yields and the files'
    contents; the output file can be written, and standard output can
    encode every path. *)
Definition tree_fs (walk : list (pystr * list pystr))
    (files : Dict.t (result pybytes)) : FileSystem := {|
  path_exists := λ _, true;
  os_walk := λ _, walk;
  read_bytes := λ file_path,
    match Dict.get file_path files with
    | Some r => r
    | None => Raise (Exn (py "FileNotFoundError") file_path)
    end;
  write_text := λ _ _, None;
  stdout_error := λ _, None;
|}.

(** Two empty headers, listed by the walk in either order. *)
Definition two_headers : Dict.t (result pybytes) :=
  [(py "./src/a.h", Ok []); (py "./src/b.h", Ok [])].

Definition walk_a_then_b : list (pystr * list pystr) :=
  [(py "./src", [py "a.h"; py "b.h"])].

Definition walk_b_then_a : list (pystr * list pystr) :=
  [(py "./src", [py "b.h"; py "a.h"])].

(** One source file [int f(){}]; the include pattern makes the engine
    raise, the function pattern captures [f] at bytes 4 to 5. *)
Definition one_function : pybytes := bytes_of "int f(){}".



(** A source file with the two forms of inclusion, a quoted path at
    bytes 9 to 20 and a bracketed one at bytes 30 to 41. *)
Definition two_includes : pybytes :=
  bytes_of "#include " ++ [x22] ++ bytes_of "foo/bar.h" ++ [x22; x0a]
  ++ bytes_of "#include <foo/bar.h>".

Definition include_engine : TreeSitter :=
  table_engine (λ _, false)
    (λ pattern _,
       if bool_decide (pattern = CPP_INCLUDE_QUERY_STR)
       then Ok [(py "include_path",
                 [{| start_byte := 9; end_byte := 20 |};
                  {| start_byte := 30; end_byte := 41 |}])]
       else Ok []).

(** A tree with a header, a Python file and a README. *)
Definition mixed_walk : list (pystr * list pystr) :=
  [(py "./src", [py "a.h"; py "x.py"; py "README.md"])].

Definition mixed_fs : FileSystem :=
  tree_fs mixed_walk
    [(py "./src/a.h", Ok (bytes_of "struct A {};"));
     (py "./src/x.py", Ok (bytes_of "import os"));
     (py "./src/README.md", Ok (bytes_of "# readme"))].

(** A tree whose only header cannot be read. *)
Definition unreadable_fs : FileSystem :=
  tree_fs [(py "./src", [py "a.h"; py "b.h"])]
    [(py "./src/a.h",
      Raise (Exn (py "PermissionError") (py "Permission denied")));
     (py "./src/b.h", Ok [])].

(** A tree without source files. *)
Definition docs_only_fs : FileSystem :=
  tree_fs [(py "./src", [py "README.md"; py "x.py"])] [].

(** No source directory. *)
Definition missing_src_fs : FileSystem := {|
  path_exists := λ _, false;
  os_walk := λ _, [];
  read_bytes := λ file_path, Raise (Exn (py "FileNotFoundError") file_path);
  write_text := λ _ _, None;
  stdout_error := λ _, None;
|}.

(** An engine whose language cannot be loaded. *)
Definition no_language_engine : TreeSitter := {|
  language := unit;
  parser := unit;
  tree := pybytes;
  query := pystr;
  get_language := λ _, Raise (Exn (py "LookupError") (py "cpp"));
  get_parser := λ _, Ok tt;
  parser_parse := λ _ content, Ok content;
  language_query := λ _ pattern, Ok pattern;
  query_captures := λ _ _, Ok [];
|}.



End Fixtures.

(** ** More of [str] and [os.path] *)

Module PyStrMore.

(** [s.endswith(suffix)] *)
Definition endswith (suffix s : pystr) : bool :=
  bool_decide ((length suffix ≤ length s)%nat
               ∧ drop (length s - length suffix) s = suffix).

(** [separator.join(parts)] *)
Fixpoint join (separator : pystr) (parts : list pystr) : pystr :=
  match parts with
  | [] => []
  | [part] => part
  | part :: rest => part ++ separator ++ join separator rest
  end.

(** [s[:k]]: a negative [k] counts from the end. *)
Definition slice_to (k : Z) (s : pystr) : pystr :=
  if (k <? 0)%Z then take (Z.to_nat (Z.of_nat (length s) + k)) s
  else take (Z.to_nat k) s.

End PyStrMore.

Module OsPathMore.

(** [os.path.basename(p)]: what follows the last separator. *)
Definition basename (p : pystr) : pystr :=
  let i := Z.to_nat (PyStr.rfind OsPath.sep p + 1) in
  drop i p.

(** [os.path.dirname(p)]: what precedes the last separator, without the
    separators at its end unless it is made of separators only. *)
Definition dirname (p : pystr) : pystr :=
  let i := Z.to_nat (PyStr.rfind OsPath.sep p + 1) in
  let head := take i p in
  if negb (bool_decide (head = []))
     && negb (bool_decide (head = replicate (length head) OsPath.sep))
  then PyStr.rstrip [OsPath.sep] head
  else head.

End OsPathMore.

(** ** [generate_interdocs.py]: how the keys of the index are used *)

Module Interdocs.

Definition FILE_NOTES_DIR : pystr := py "./file_notes".
Definition VALID_CPP_EXTENSIONS : gset pystr :=
  {[ py ".h"; py ".cpp"; py ".i" ]}.

(** Line 60 of [get_file_notes]: the path the notes of a file are read
    from. *)
Definition md_path (filename_with_ext : pystr) : pystr :=
  OsPath.join FILE_NOTES_DIR (filename_with_ext ++ py ".md").

(** Lines 148-154 of [main]: for a key whose file name has the
    extension [.h], the key under which the implementation file is
    looked up; [None] for the other keys. *)
Definition potential_cpp_key (file_path_key_in_struct : pystr)
  : option pystr :=
  let original_filename := OsPathMore.basename file_path_key_in_struct in
  let '(base_name_no_ext, ext) := OsPath.splitext original_filename in
  if bool_decide (ext = py ".h") then
    Some (OsPath.join (OsPathMore.dirname file_path_key_in_struct)
            (base_name_no_ext ++ py ".cpp"))
  else None.

(** Lines 200-203 of [main]: the test a key passes to be documented on
    its own. *)
Definition is_standalone_candidate (file_path_key_in_struct : pystr) : bool :=
  let original_filename := OsPathMore.basename file_path_key_in_struct in
  let ext := (OsPath.splitext original_filename).2 in
  bool_decide (ext ∈ VALID_CPP_EXTENSIONS).

End Interdocs.

(** ** [annotate_files.py]: which files get notes, and where *)

Module Annotate.

Definition FILE_NOTES_DIR : pystr := py "./file_notes".
Definition VALID_EXTENSIONS : gset pystr := {[ py ".h"; py ".cpp"; py ".i" ]}.

(** Line 148 of [main]:
    [any(filename.endswith(ext) for ext in VALID_EXTENSIONS)]. *)
Definition is_selected (filename : pystr) : bool :=
  existsb (λ ext, PyStrMore.endswith ext filename) (elements VALID_EXTENSIONS).

(** Lines 150-151 of [main]: the path the notes of a file are written
    to. *)
Definition output_md_path (filename : pystr) : pystr :=
  OsPath.join FILE_NOTES_DIR (filename ++ py ".md").

End Annotate.

(** ** [generate_high_level_doc.py] *)

Module HighLevel.

(** The calls made into the file system; [listdir] and [read_text] may
    raise. *)
Record TextFiles := {
  dir_exists : pystr → bool;
  listdir : pystr → result (list pystr);
  read_text : pystr → result pystr;
}.

(** What the two functions print. *)
Inductive event :=
| DirectoryNotFound (directory : pystr)
| LoadingFrom (directory : pystr)
| Loaded (filename : pystr) (chars : nat)
| ReadError (file_path : pystr) (e : exn)
| InputTooLong (chars : nat)
| StructureTooLong
| TruncatedTo (chars : nat).

(** Line 67: ["\n\n--- Content from: {filename} ---\n{content}"] *)
Definition content_block (filename content : pystr) : pystr :=
  [10; 10] ++ py "--- Content from: " ++ filename ++ py " ---" ++ [10]
  ++ content.

(** Lines 61-70: the body of the loop over the sorted names. *)
Definition load_step (fs : TextFiles) (directory : pystr)
    (acc : list event * list pystr) (filename : pystr)
  : list event * list pystr :=
  if PyStrMore.endswith (py ".md") filename then
    let file_path := OsPath.join directory filename in
    match read_text fs file_path with
    | Ok content =>
      (acc.1 ++ [Loaded filename (length content)],
       acc.2 ++ [content_block filename content])
    | Raise e => (acc.1 ++ [ReadError file_path e], acc.2)
    end
  else acc.

(** [load_all_markdown_from_dir]: what it prints, and the text it
    returns or the exception of [os.listdir], which it lets through. *)
Definition load_all_markdown_from_dir (fs : TextFiles) (directory : pystr)
  : list event * result pystr :=
  if negb (dir_exists fs directory) then ([DirectoryNotFound directory], Ok [])
  else
    match listdir fs directory with
    | Raise e => ([LoadingFrom directory], Raise e)
    | Ok names =>
      let '(log, all_md_content_list) :=
        foldl (load_step fs directory) ([LoadingFrom directory], [])
              (sorted names) in
      (log, Ok (concat all_md_content_list))
    end.

Definition MAX_PROMPT_CHARS_APPROX : Z := 180000 * 3.

(** Lines 99-105 of [main]: the five sections of the prompt. *)
Definition prompt_sections
    (repo_structure_str intermediate_docs_content file_notes_content : pystr)
  : pystr * pystr * pystr * pystr * pystr :=
  (py "## Repository Structure:" ++ [10] ++ py "```json" ++ [10]
     ++ repo_structure_str ++ [10] ++ py "```",
   py "## Intermediate Component Documentation:",
   intermediate_docs_content,
   py "## Detailed Per-File Notes:",
   file_notes_content).

(** The state of the truncation: the sections kept so far, the budget
    left, and what was printed. *)
Record budget := {
  truncated_sections : list pystr;
  chars_left : Z;
  warnings : list event;
}.

(** Lines 116-124: the structure and the heading that follows it. *)
Definition keep_structure (s0 s1 : pystr) (b : budget) : budget :=
  let section1_len := (Z.of_nat (length s0) + Z.of_nat (length s1) + 4)%Z in
  if (section1_len <=? chars_left b)%Z then
    {| truncated_sections := truncated_sections b ++ [s0; s1];
       chars_left := (chars_left b - section1_len)%Z;
       warnings := warnings b |}
  else
    {| truncated_sections :=
         truncated_sections b ++ [PyStrMore.slice_to (chars_left b) s0];
       chars_left := 0;
       warnings := warnings b ++ [StructureTooLong] |}.

(** Lines 126-134: the intermediate documentation. *)
Definition keep_intermediate (s2 : pystr) (b : budget) : budget :=
  if (0 <? chars_left b)%Z && (0 <? length s2)%nat then
    if (Z.of_nat (length s2) <=? chars_left b)%Z then
      {| truncated_sections := truncated_sections b ++ [s2];
         chars_left := (chars_left b - (Z.of_nat (length s2) + 2))%Z;
         warnings := warnings b |}
    else
      {| truncated_sections :=
           truncated_sections b ++ [PyStrMore.slice_to (chars_left b) s2];
         chars_left := 0;
         warnings := warnings b |}
  else b.

(** Lines 136-144: the heading of the notes and the notes. *)
Definition keep_notes (s3 s4 : pystr) (b : budget) : budget :=
  if (0 <? chars_left b)%Z && (0 <? length s3)%nat && (0 <? length s4)%nat
  then
    let left := (chars_left b - (Z.of_nat (length s3) + 2))%Z in
    {| truncated_sections :=
         truncated_sections b
         ++ [s3;
             if (Z.of_nat (length s4) <=? left)%Z then s4
             else PyStrMore.slice_to left s4];
       chars_left := left;
       warnings := warnings b |}
  else b.

(** Lines 107-146 of [main]: the text put into the prompt, and what is
    printed on the way. The limit is [MAX_PROMPT_CHARS_APPROX]. *)
Definition combined_input_text (max_chars : Z)
    (repo_structure_str intermediate_docs_content file_notes_content : pystr)
  : list event * pystr :=
  let '(s0, s1, s2, s3, s4) :=
    prompt_sections repo_structure_str intermediate_docs_content
      file_notes_content in
  let combined := PyStrMore.join [10; 10] [s0; s1; s2; s3; s4] in
  let current_chars := length combined in
  if (max_chars <? Z.of_nat current_chars)%Z then
    let b := keep_notes s3 s4
               (keep_intermediate s2
                  (keep_structure s0 s1
                     {| truncated_sections := [];
                        chars_left := max_chars;
                        warnings := [InputTooLong current_chars] |})) in
    let text := PyStrMore.join [10; 10] (truncated_sections b) in
    (warnings b ++ [TruncatedTo (length text)], text)
  else ([], combined).

Definition main_input_text := combined_input_text MAX_PROMPT_CHARS_APPROX.

End HighLevel.

(** A header that changed, beside the unchanged one. *)
Definition two_headers_one_changed : Dict.t (result pybytes) :=
  [(py "./src/a.h", Ok (Fixtures.bytes_of "struct A {};"));
   (py "./src/b.h", Ok [])].

(** ** Vocabulary of the further properties *)

(** What the scan does at the head of a non-empty input: either the
    input starts with the encoding of a scalar value, which the scan
    reads, or the scan sets aside between one and three bytes. *)
Definition scan_step (bs : pybytes) : Prop :=
  (∃ c rest,
     is_scalar c ∧ bs = utf8_encode_char c ++ rest
     ∧ PyBytes.utf8_scan bs = PyBytes.Char c :: PyBytes.utf8_scan rest)
  ∨ (∃ why n,
       (1 ≤ n ≤ 3)%nat ∧ (n ≤ length bs)%nat
       ∧ PyBytes.utf8_scan bs
         = PyBytes.Undecodable why n :: PyBytes.utf8_scan (drop n bs)).

(** The text of the prompt before any truncation: line 107 of [main] in
    [generate_high_level_doc.py]. *)
Definition untruncated_text
    (repo_structure_str intermediate_docs_content file_notes_content : pystr)
  : pystr :=
  let '(s0, s1, s2, s3, s4) :=
    HighLevel.prompt_sections repo_structure_str intermediate_docs_content
      file_notes_content in
  PyStrMore.join [10; 10] [s0; s1; s2; s3; s4].

(** The value of [chars_left] when the truncation reaches the notes
    (line 137). *)
Definition budget_before_notes (max_chars : Z)
    (repo_structure_str intermediate_docs_content file_notes_content : pystr)
  : Z :=
  let '(s0, s1, s2, _, _) :=
    HighLevel.prompt_sections repo_structure_str intermediate_docs_content
      file_notes_content in
  HighLevel.chars_left
    (HighLevel.keep_intermediate s2
       (HighLevel.keep_structure s0 s1
          {| HighLevel.truncated_sections := [];
             HighLevel.chars_left := max_chars;
             HighLevel.warnings := [] |})).

(** A directory of notes, listed in two orders by two file systems. *)
Definition notes_files (names : list pystr) : HighLevel.TextFiles := {|
  HighLevel.dir_exists := λ _, true;
  HighLevel.listdir := λ _, Ok names;
  HighLevel.read_text := λ file_path,
    if bool_decide (file_path = py "./file_notes/b.h.md")
    then Raise (Exn (py "UnicodeDecodeError") (py "invalid start byte"))
    else Ok (py "notes of " ++ file_path);
|}.
(** ** Facts on the order *)

Module PyStrFacts.
Import PyStr.

Lemma leb_refl a : leb a a = true.
Proof.
  induction a as [|x a IH]; simpl; [done|].
  rewrite N.ltb_irrefl, N.eqb_refl. exact IH.
Qed.

Lemma leb_total a b : leb a b = true ∨ leb b a = true.
Proof.
  revert b. induction a as [|x a IH]; intros [|y b]; simpl; auto.
  destruct (N.ltb_spec x y) as [Hxy|Hxy]; [by left|].
  destruct (N.eqb_spec x y) as [->|Hne].
  - rewrite N.ltb_irrefl, N.eqb_refl. apply IH.
  - right. destruct (N.ltb_spec y x); [done|lia].
Qed.

Lemma leb_antisym a b : leb a b = true → leb b a = true → a = b.
Proof.
  revert b. induction a as [|x a IH]; intros [|y b]; simpl; try done.
  destruct (N.ltb_spec x y) as [Hxy|Hxy].
  - destruct (N.ltb_spec y x); [lia|].
    destruct (N.eqb_spec y x); [lia|done].
  - destruct (N.eqb_spec x y) as [->|Hne]; [|done].
    rewrite N.ltb_irrefl, N.eqb_refl. intros H1 H2. f_equal. by apply IH.
Qed.

Lemma leb_trans a b c : leb a b = true → leb b c = true → leb a c = true.
Proof.
  revert b c. induction a as [|x a IH]; intros [|y b] [|z c]; simpl; try done.
  destruct (N.ltb_spec x y) as [Hxy|Hxy].
  - intros _. destruct (N.ltb_spec y z) as [Hyz|Hyz].
    + intros _. destruct (N.ltb_spec x z); [done|lia].
    + destruct (N.eqb_spec y z) as [->|]; [|done].
      intros _. destruct (N.ltb_spec x z); [done|lia].
  - destruct (N.eqb_spec x y) as [->|]; [|done].
    intros Hab. destruct (N.ltb_spec y z); [done|].
    destruct (N.eqb_spec y z) as [->|]; [|done].
    intros Hbc. by apply (IH b).
Qed.

#[global] Instance le_total : Total le.
Proof. intros a b. apply leb_total. Qed.
#[global] Instance le_trans : Transitive le.
Proof. intros a b c. apply leb_trans. Qed.
#[global] Instance le_antisym : AntiSymm (=) le.
Proof. intros a b. apply leb_antisym. Qed.
#[global] Instance le_refl : Reflexive le.
Proof. intros a. apply leb_refl. Qed.

End PyStrFacts.

(** ** Facts on normalization *)

Section normalize_facts.
Import PyStrFacts.

Lemma sorted_Sorted l : Sorted PyStr.le (sorted l).
Proof. apply Sorted_merge_sort, _. Qed.

Lemma sorted_Permutation l : sorted l ≡ₚ l.
Proof. apply merge_sort_Permutation. Qed.

(** Sorting does not depend on the order in which the members of a set
    are listed. *)
Lemma sorted_perm_eq l1 l2 : l1 ≡ₚ l2 → sorted l1 = sorted l2.
Proof.
  intros H. apply (Sorted_unique PyStr.le); try apply sorted_Sorted.
  by rewrite !sorted_Permutation.
Qed.

Lemma elem_of_normalize l x : x ∈ normalize l ↔ x ∈ l.
Proof.
  unfold normalize, py_list, py_set.
  rewrite sorted_Permutation, elem_of_elements, elem_of_list_to_set. done.
Qed.

Lemma NoDup_normalize l : NoDup (normalize l).
Proof.
  unfold normalize, py_list. rewrite sorted_Permutation. apply NoDup_elements.
Qed.

Lemma Sorted_normalize l : Sorted PyStr.le (normalize l).
Proof. apply sorted_Sorted. Qed.

(** Whatever order the set yields its members in, the sorted listing is
    the same. *)
Lemma normalize_any_listing l s :
  NoDup s → (∀ x, x ∈ s ↔ x ∈ l) → sorted s = normalize l.
Proof.
  intros Hnd Hs. unfold normalize. apply sorted_perm_eq.
  apply NoDup_Permutation; [done|apply NoDup_elements|].
  intros x. unfold py_list, py_set.
  rewrite elem_of_elements, elem_of_list_to_set. apply Hs.
Qed.

Lemma normalize_same_members l1 l2 :
  (∀ x, x ∈ l1 ↔ x ∈ l2) → normalize l1 = normalize l2.
Proof.
  intros H. symmetry. apply normalize_any_listing.
  - apply NoDup_elements.
  - intros x. unfold py_list, py_set.
    rewrite elem_of_elements, elem_of_list_to_set. symmetry. apply H.
Qed.

Lemma normalize_idemp l : normalize (normalize l) = normalize l.
Proof. apply normalize_same_members. intros x. apply elem_of_normalize. Qed.

Lemma normalize_nil : normalize [] = [].
Proof.
  apply Permutation_nil_r. unfold normalize.
  rewrite sorted_Permutation. unfold py_list, py_set. simpl.
  by rewrite elements_empty.
Qed.

End normalize_facts.


(** ** Facts on dictionaries *)

Module DictFacts.

Lemma get_set_eq {V} k (v : V) d : Dict.get k (Dict.set k v d) = Some v.
Proof.
  induction d as [|[k' v'] d IH]; simpl.
  - by rewrite bool_decide_eq_true_2.
  - case_bool_decide; simpl.
    + by rewrite bool_decide_eq_true_2.
    + by rewrite bool_decide_eq_false_2.
Qed.

Lemma get_set_ne {V} k k' (v : V) d :
  k ≠ k' → Dict.get k' (Dict.set k v d) = Dict.get k' d.
Proof.
  intros Hne. induction d as [|[k0 v0] d IH]; simpl.
  - by rewrite bool_decide_eq_false_2.
  - case_bool_decide as Hk; simpl.
    + subst k0. by rewrite !bool_decide_eq_false_2.
    + by rewrite IH.
Qed.

Lemma get_set {V} k k' (v : V) d :
  Dict.get k' (Dict.set k v d)
  = if bool_decide (k = k') then Some v else Dict.get k' d.
Proof.
  case_bool_decide; [subst; apply get_set_eq|by apply get_set_ne].
Qed.

Lemma elem_of_keys {V} k (d : Dict.t V) :
  k ∈ Dict.keys d ↔ is_Some (Dict.get k d).
Proof.
  unfold Dict.keys. induction d as [|[k' v'] d IH]; simpl.
  - split; [by intros ?%elem_of_nil|by intros [? ?]].
  - rewrite elem_of_cons. case_bool_decide; subst.
    + split; eauto.
    + rewrite IH. split; [intros [?|?]; [congruence|done]|auto].
Qed.

Lemma not_elem_of_keys {V} k (d : Dict.t V) :
  k ∉ Dict.keys d ↔ Dict.get k d = None.
Proof. rewrite elem_of_keys, eq_None_not_Some. done. Qed.

Lemma keys_set {V} k (v : V) d :
  Dict.keys (Dict.set k v d)
  = if bool_decide (k ∈ Dict.keys d) then Dict.keys d else Dict.keys d ++ [k].
Proof.
  unfold Dict.keys. induction d as [|[k' v'] d IH].
  - case_bool_decide as Hin; [by apply elem_of_nil in Hin|done].
  - cbn [Dict.set]. destruct (decide (k' = k)) as [->|Hk].
    + rewrite (bool_decide_eq_true_2 (k = k)) by done.
      rewrite bool_decide_eq_true_2; [done|]. by left.
    + rewrite (bool_decide_eq_false_2 (k' = k)) by done.
      rewrite !fmap_cons, IH. cbn [fst].
      destruct (decide (k ∈ d.*1)) as [Hin|Hin].
      * rewrite !bool_decide_eq_true_2; [done|by right|done].
      * rewrite !bool_decide_eq_false_2; [done| |done].
        intros [?|?]%elem_of_cons; [congruence|done].
Qed.

Lemma NoDup_keys_set {V} k (v : V) d :
  NoDup (Dict.keys d) → NoDup (Dict.keys (Dict.set k v d)).
Proof.
  intros Hd. rewrite keys_set. case_bool_decide as Hin; [done|].
  apply NoDup_app. split_and!; [done| |apply NoDup_singleton].
  intros x Hx ->%list_elem_of_singleton. done.
Qed.

Lemma set_not_nil {V} k (v : V) d : Dict.set k v d ≠ [].
Proof. destruct d as [|[k' v'] d]; simpl; [done|]. by case_bool_decide. Qed.


End DictFacts.

(** ** Facts on paths *)

Module PathFacts.
Import PyStr OsPath.
Local Open Scope Z_scope.

Lemma rfind_from_app c x y i f :
  rfind_from c (x ++ y) i f
  = rfind_from c y (i + Z.of_nat (length x)) (rfind_from c x i f).
Proof.
  revert i f. induction x as [|a x IH]; intros i f; simpl.
  - f_equal. lia.
  - rewrite IH. f_equal. lia.
Qed.

Lemma rfind_from_absent c s i f : c ∉ s → rfind_from c s i f = f.
Proof.
  revert i f. induction s as [|a s IH]; intros i f Hc; simpl; [done|].
  apply not_elem_of_cons in Hc as [Hne Hc].
  rewrite IH by done. destruct (N.eqb_spec a c); congruence.
Qed.

Lemma rfind_from_present c s i f :
  c ∈ s → rfind_from c s i f = i + rfind c s ∧ 0 ≤ rfind c s < Z.of_nat (length s).
Proof.
  unfold rfind. revert i f. induction s as [|a s IH]; intros i f Hc; simpl.
  { by apply elem_of_nil in Hc. }
  destruct (decide (c ∈ s)) as [Hin|Hnotin].
  - destruct (IH (i + 1) (if (a =? c)%N then i else f) Hin) as [-> _].
    destruct (IH (0 + 1) (if (a =? c)%N then 0 else -1) Hin) as [-> ?]. lia.
  - apply elem_of_cons in Hc as [->|?]; [|done].
    rewrite N.eqb_refl, !rfind_from_absent by done. lia.
Qed.

Lemma rfind_absent c s : c ∉ s → rfind c s = -1.
Proof. apply rfind_from_absent. Qed.

Lemma rfind_range c s : -1 ≤ rfind c s < Z.of_nat (length s).
Proof.
  destruct (decide (c ∈ s)) as [Hin|Hnotin].
  - destruct (rfind_from_present c s 0 0 Hin). lia.
  - rewrite rfind_absent by done. lia.
Qed.

Lemma rfind_app c x y :
  rfind c (x ++ y)
  = if bool_decide (c ∈ y) then Z.of_nat (length x) + rfind c y
    else rfind c x.
Proof.
  unfold rfind at 1. rewrite rfind_from_app. case_bool_decide as Hy.
  - destruct (rfind_from_present c y (0 + Z.of_nat (length x))
                (rfind_from c x 0 (-1)) Hy) as [-> _]. lia.
  - by rewrite rfind_from_absent.
Qed.

(** After a prefix that ends with the separator, the last separator of
    the whole is that of the suffix, shifted. *)
Lemma rfind_sep_after_dir a b :
  rfind sep ((a ++ [sep]) ++ b)
  = Z.of_nat (length (a ++ [sep])) + rfind sep b.
Proof.
  rewrite rfind_app. case_bool_decide as Hb; [done|].
  rewrite rfind_app, bool_decide_eq_true_2 by apply list_elem_of_singleton, eq_refl.
  rewrite (rfind_absent _ b) by done. rewrite length_app. simpl.
  change (rfind sep [sep]) with 0. lia.
Qed.

Lemma slice_shift {A} (x y : list A) (i j : nat) :
  PyBytes.slice (length x + i) (length x + j) (x ++ y) = PyBytes.slice i j y.
Proof.
  unfold PyBytes.slice. rewrite drop_app_add'; [|done].
  f_equal. lia.
Qed.

(** The extension is read after the last separator only. *)
Lemma splitext_after_dir a b :
  (splitext ((a ++ [sep]) ++ b)).2 = (splitext b).2.
Proof.
  unfold splitext. rewrite rfind_sep_after_dir.
  set (x := a ++ [sep]).
  pose proof (rfind_range sep b) as Hs.
  pose proof (rfind_range extsep b) as Hd.
  rewrite (rfind_app extsep x b). case_bool_decide as Hdot.
  - destruct (rfind_from_present extsep b 0 0 Hdot) as [_ Hd'].
    destruct (Z.ltb_spec (rfind sep b) (rfind extsep b)) as [Hlt|Hge].
    + rewrite (proj2 (Z.ltb_lt _ _)) by lia.
      replace (Z.to_nat (Z.of_nat (length x) + rfind sep b + 1))
        with (length x + Z.to_nat (rfind sep b + 1))%nat by lia.
      replace (Z.to_nat (Z.of_nat (length x) + rfind extsep b))
        with (length x + Z.to_nat (rfind extsep b))%nat by lia.
      rewrite slice_shift. destruct (forallb _ _); simpl; [done|].
      by rewrite drop_app_add'.
    + rewrite (proj2 (Z.ltb_ge _ _)) by lia. done.
  - rewrite (rfind_absent extsep b) in * by done.
    pose proof (rfind_range extsep x).
    rewrite (proj2 (Z.ltb_ge _ _)) by lia.
    rewrite (proj2 (Z.ltb_ge _ _)) by lia. done.
Qed.

Lemma endswith_inv c s : endswith c s = true → ∃ s', s = s' ++ [c].
Proof.
  unfold endswith, startswith. destruct (reverse s) as [|x r] eqn:Hr; [done|].
  intros ->%N.eqb_eq. exists (reverse r).
  rewrite <-(reverse_involutive s), Hr, reverse_cons. done.
Qed.

(** The joined path of a directory and a name has the name's extension. *)
Lemma extension_join root filename :
  extension_of (join root filename) = extension_of filename.
Proof.
  unfold extension_of, join.
  destruct (startswith sep filename); [done|].
  case_bool_decide as Hroot; simpl.
  - by subst.
  - destruct (endswith sep root) eqn:Hend.
    + apply endswith_inv in Hend as [a ->]. apply splitext_after_dir.
    + replace (root ++ sep :: filename) with ((root ++ [sep]) ++ filename)
        by (by rewrite <-app_assoc).
      apply splitext_after_dir.
Qed.

End PathFacts.

(** ** Facts on [strip] *)

Module StripFacts.
Import PyStr.

Lemma lstrip_split chars s :
  ∃ pre, s = pre ++ lstrip chars s ∧ Forall (λ c, c ∈ chars) pre.
Proof.
  induction s as [|c s (pre & Hs & Hpre)]; simpl.
  - by exists [].
  - case_bool_decide as Hc.
    + exists (c :: pre). split; [by rewrite Hs at 1|by constructor].
    + by exists [].
Qed.

Lemma lstrip_head chars s c rest : lstrip chars s = c :: rest → c ∉ chars.
Proof.
  induction s as [|x s IH]; simpl; [done|].
  case_bool_decide as Hx; [done|]. by intros [= -> _].
Qed.

Lemma rstrip_split chars s :
  ∃ post, s = rstrip chars s ++ post ∧ Forall (λ c, c ∈ chars) post.
Proof.
  unfold rstrip. destruct (lstrip_split chars (reverse s)) as (pre & Hs & Hpre).
  exists (reverse pre). split.
  - rewrite <-reverse_app, <-Hs. by rewrite reverse_involutive.
  - by apply Forall_reverse.
Qed.

Lemma rstrip_last chars s c rest : rstrip chars s = rest ++ [c] → c ∉ chars.
Proof.
  unfold rstrip. intros H. apply (f_equal reverse) in H.
  rewrite reverse_involutive, reverse_app in H. simpl in H.
  by eapply lstrip_head.
Qed.

(** [strip] takes characters of [chars] off both ends, and nothing else,
    and goes on until an edge holds another character. *)
Lemma strip_split chars s :
  ∃ pre post,
    s = pre ++ strip chars s ++ post
    ∧ Forall (λ c, c ∈ chars) pre ∧ Forall (λ c, c ∈ chars) post
    ∧ (∀ c rest, strip chars s = c :: rest → c ∉ chars)
    ∧ (∀ c rest, strip chars s = rest ++ [c] → c ∉ chars).
Proof.
  unfold strip.
  destruct (lstrip_split chars s) as (pre & Hs & Hpre).
  destruct (rstrip_split chars (lstrip chars s)) as (post & Hm & Hpost).
  exists pre, post. split_and!; [by rewrite <-Hm|done|done| |].
  - intros c rest Hc. rewrite Hc in Hm.
    by eapply lstrip_head.
  - intros c rest. apply rstrip_last.
Qed.

(** A text whose edges hold no character of [chars] is left as it is. *)
Lemma lstrip_id chars c s : c ∉ chars → lstrip chars (c :: s) = c :: s.
Proof. intros Hc. simpl. by rewrite bool_decide_eq_false_2. Qed.

End StripFacts.

(** ** Facts on decoding *)

Module DecodeFacts.
Import PyBytes.

Lemma handle_ignore items : handle Ignore items = Ok (kept_chars items).
Proof.
  induction items as [|[c|why len] items IH]; simpl; [done| |done].
  by rewrite IH.
Qed.

Lemma handle_replace items :
  handle Replace items
  = Ok ((λ i, match i with Char c => c | Undecodable _ _ => 0xFFFD end)
          <$> items).
Proof.
  induction items as [|[c|why len] items IH]; simpl; [done| |];
    by rewrite IH.
Qed.

Lemma handle_strict_ok items s :
  handle Strict items = Ok s → kept_chars items = s.
Proof.
  revert s. induction items as [|[c|why len] items IH]; intros s; simpl.
  - by intros [= <-].
  - destruct (handle Strict items) as [s'|e]; [|done].
    intros [= <-]. f_equal. by apply IH.
  - done.
Qed.

Lemma decode_ignore_ok bs :
  decode_utf8 Ignore bs = Ok (kept_chars (utf8_scan bs)).
Proof. apply handle_ignore. Qed.

Lemma kept_chars_length items :
  (length (kept_chars items)
   + length (filter (λ i, is_undecodable i = true) items))%nat
  = length items.
Proof.
  induction items as [|[c|why len] items IH]; [done| |].
  - rewrite filter_cons_False by done. simpl in *. lia.
  - rewrite filter_cons_True by done. simpl in *. lia.
Qed.

(** ASCII bytes decode to themselves. *)
Lemma utf8_scan_ascii bs :
  Forall (λ b, Byte.to_N b < 0x80) bs →
  utf8_scan bs = (λ b, Char (Byte.to_N b)) <$> bs.
Proof.
  induction 1 as [|b bs Hb _ IH]; [done|].
  cbn [utf8_scan]. cbv zeta.
  rewrite (proj2 (N.ltb_lt _ _) Hb). by rewrite IH.
Qed.

Ltac lia_div := zify; Z.to_euclidean_division_equations; lia.

Lemma to_N_byte_of n : n < 256 → Byte.to_N (byte_of n) = n.
Proof.
  intros Hn. unfold byte_of. destruct (Byte.of_N n) as [b|] eqn:Hb.
  - by apply Byte.to_of_N.
  - apply Byte.of_N_None_iff in Hb. lia.
Qed.

Lemma is_continuation_byte (b : byte) :
  is_continuation (Byte.to_N b)
  = (0x80 <=? Byte.to_N b) && (Byte.to_N b <? 0xC0).
Proof. destruct b; reflexivity. Qed.

Lemma is_continuation_true n :
  0x80 ≤ n → n < 0xC0 → is_continuation n = true.
Proof.
  intros Hlo Hhi. rewrite <-(to_N_byte_of n) by lia.
  rewrite is_continuation_byte, to_N_byte_of by lia.
  apply andb_true_intro. split; [by apply N.leb_le|by apply N.ltb_lt].
Qed.

Ltac decide_ifs :=
  repeat match goal with
         | |- context [N.ltb ?a ?b] =>
           destruct (N.ltb_spec a b); try (exfalso; lia_div)
         | |- context [N.eqb ?a ?b] =>
           destruct (N.eqb_spec a b); try (exfalso; lia_div)
         end.

(** The scan reads the encoding of a scalar value back as that value. *)
Lemma utf8_scan_encode_char c rest :
  is_scalar c →
  utf8_scan (utf8_encode_char c ++ rest) = Char c :: utf8_scan rest.
Proof.
  intros Hc. unfold is_scalar in Hc. unfold utf8_encode_char.
  destruct (N.ltb_spec c 0x80) as [H1|H1];
    [|destruct (N.ltb_spec c 0x800) as [H2|H2];
      [|destruct (N.ltb_spec c 0x10000) as [H3|H3]]];
    cbn [app utf8_scan]; cbv zeta;
    rewrite ?to_N_byte_of by lia_div;
    rewrite ?is_continuation_true by lia_div;
    rewrite ?N.shiftl_mul_pow2; cbn [negb orb];
    decide_ifs; cbn [negb orb]; f_equal; f_equal; lia_div.
Qed.

Lemma utf8_scan_encode s :
  Forall is_scalar s → utf8_scan (utf8_encode s) = Char <$> s.
Proof.
  induction 1 as [|c s Hc _ IH]; [done|].
  unfold utf8_encode in *. cbn [mbind list_bind].
  rewrite utf8_scan_encode_char by done. rewrite fmap_cons. by f_equal.
Qed.

Lemma kept_chars_Char s : kept_chars (Char <$> s) = s.
Proof.
  unfold kept_chars. induction s as [|c s IH]; [done|].
  rewrite fmap_cons. cbn [omap list_omap]. by rewrite IH.
Qed.

Lemma get_node_text_kept node content_bytes :
  get_node_text node content_bytes
  = Ok (kept_chars (utf8_scan
          (slice (start_byte node) (end_byte node) content_bytes))).
Proof. apply decode_ignore_ok. Qed.

End DecodeFacts.

(** ** Facts on the extractor *)

Ltac by_compute :=
  match goal with
  | |- ?P => apply (bool_decide_unpack P); vm_compute; exact I
  end.

Section extractor_facts.
Context {ts : TreeSitter}.

Lemma add_nodes_spec data_key content_bytes nodes acc :
  add_nodes data_key content_bytes nodes acc
  = (acc ++ (added_text data_key content_bytes <$> nodes), None).
Proof.
  revert acc. induction nodes as [|node nodes IH]; intros acc; simpl.
  - by rewrite app_nil_r.
  - rewrite DecodeFacts.get_node_text_kept, IH, <-app_assoc. done.
Qed.

Lemma add_captures_spec data_key content_bytes captures_dict names acc :
  add_captures data_key content_bytes captures_dict names acc
  = (acc ++ captured_texts data_key content_bytes captures_dict names, None).
Proof.
  unfold captured_texts.
  revert acc. induction names as [|name names IH]; intros acc; simpl.
  - by rewrite app_nil_r.
  - destruct (Dict.get name captures_dict) as [nodes|].
    + rewrite add_nodes_spec, IH, <-app_assoc. done.
    + by rewrite IH.
Qed.

(** A round of a category of the C++ profile: the captured texts, or
    nothing and the exception of the failed query. *)
Lemma run_category_spec lang t content_bytes data_key info :
  query_string info ≠ [] → capture_names info ≠ [] →
  run_category (Some lang) t content_bytes data_key info
  = match language_query lang (query_string info) with
    | Raise e => ([], Some e)
    | Ok q =>
      match query_captures q t with
      | Raise e => ([], Some e)
      | Ok captures_dict =>
        (captured_texts data_key content_bytes captures_dict
           (capture_names info), None)
      end
    end.
Proof.
  intros Hq Hc. unfold run_category.
  rewrite !bool_decide_eq_false_2 by done. simpl.
  destruct (language_query _ _) as [q|e]; [|done].
  destruct (query_captures _ _) as [d|e]; [|done].
  by rewrite add_captures_spec.
Qed.

Lemma set_fresh {V} k (v : V) d :
  k ∉ Dict.keys d → Dict.set k v d = d ++ [(k, v)].
Proof.
  unfold Dict.keys. induction d as [|[k' v'] d IH]; [done|].
  rewrite fmap_cons. cbn [fst Dict.set].
  intros [Hne Hd]%not_elem_of_cons.
  rewrite bool_decide_eq_false_2 by done. by rewrite IH.
Qed.

(** When the parser returns a tree, [parse_file_data] returns a record
    of the three categories, each normalized, and no [error] key: an
    exception of a query is printed and is not passed on. *)
Lemma parse_file_data_cpp p content_bytes lang t :
  parser_parse p content_bytes = Ok t →
  (parse_file_data p content_bytes cpp_query_definitions (Some lang)).2
  = Ok [(py "includes",
         VList (normalize (collected lang t content_bytes (py "includes"))));
        (py "functions",
         VList (normalize (collected lang t content_bytes (py "functions"))));
        (py "classes",
         VList (normalize (collected lang t content_bytes (py "classes"))))].
Proof.
  intros Hp. unfold parse_file_data. rewrite Hp.
  unfold collected.
  change (Dict.get (py "includes") cpp_query_definitions)
    with (Some {| query_string := CPP_INCLUDE_QUERY_STR;
                  capture_names := [py "include_path"] |}).
  change (Dict.get (py "functions") cpp_query_definitions)
    with (Some {| query_string := CPP_FUNCTION_QUERY_STR;
                  capture_names := [py "function_name"] |}).
  change (Dict.get (py "classes") cpp_query_definitions)
    with (Some {| query_string := CPP_CLASS_QUERY_STR;
                  capture_names := [py "class_name"] |}).
  unfold cpp_query_definitions. cbn [foldl]. unfold category_step.
  destruct (run_category _ _ _ (py "includes") _) as [l1 e1].
  destruct (run_category _ _ _ (py "functions") _) as [l2 e2].
  destruct (run_category _ _ _ (py "classes") _) as [l3 e3].
  assert (∀ (x y z : list pystr),
    Dict.set (py "classes") z
      (Dict.set (py "functions") y (Dict.set (py "includes") x []))
    = [(py "includes", x); (py "functions", y); (py "classes", z)]) as Hset.
  { intros x y z. rewrite !set_fresh; [done|by_compute..]. }
  destruct e1, e2, e3; cbn [fst snd]; by rewrite Hset.
Qed.

End extractor_facts.

(** ** Facts on the directory loop *)

Section analyze_facts.
Context {ts : TreeSitter} (fs : FileSystem).
Context (cpp_lang_obj : language) (cpp_parser : parser).

Local Abbreviation step := (λ st rf, process_file fs cpp_lang_obj cpp_parser rf.1 st rf.2).
Local Abbreviation recognized p := (extension_of p ∈ VALID_CPP_EXTENSIONS).

(** With the Python parser left unset, only the C++-like extensions
    select a profile. *)
Lemma select_profile_spec extension :
  select_profile cpp_lang_obj cpp_parser extension
  = if bool_decide (extension ∈ VALID_CPP_EXTENSIONS)
    then Some (cpp_profile cpp_lang_obj cpp_parser) else None.
Proof.
  unfold select_profile, python_parser.
  case_bool_decide; [done|]. by case_bool_decide.
Qed.

Lemma process_file_skip root st filename :
  ¬ recognized filename →
  process_file fs cpp_lang_obj cpp_parser root st filename = st.
Proof.
  intros H. unfold process_file. destruct (raised st); [done|].
  fold (extension_of filename).
  by rewrite select_profile_spec, bool_decide_eq_false_2.
Qed.

(** Once an exception has left the loops, nothing more is done. *)
Lemma process_file_raised root st filename e :
  raised st = Some e →
  process_file fs cpp_lang_obj cpp_parser root st filename = st.
Proof. intros H. unfold process_file. by rewrite H. Qed.

(** The banner that standard output cannot encode: nothing is counted,
    stored or printed, and the exception leaves the loops. *)
Lemma process_file_rejected root st filename e :
  raised st = None → recognized filename →
  stdout_error fs (OsPath.join root filename) = Some e →
  process_file fs cpp_lang_obj cpp_parser root st filename
  = {| repo_structure := repo_structure st; file_count := file_count st;
       stdout := stdout st; raised := Some e |}.
Proof.
  intros Hst H He. unfold process_file. rewrite Hst.
  fold (extension_of filename).
  by rewrite select_profile_spec, bool_decide_eq_true_2, He.
Qed.

(** The banner that is printed: the file is counted and its record is
    stored, whatever its analysis does. *)
Lemma process_file_record root st filename :
  raised st = None → recognized filename →
  stdout_error fs (OsPath.join root filename) = None →
  let file_path := OsPath.join root filename in
  let st' := process_file fs cpp_lang_obj cpp_parser root st filename in
  repo_structure st'
  = Dict.set file_path (record_of fs cpp_lang_obj cpp_parser file_path)
      (repo_structure st)
  ∧ file_count st' = S (file_count st)
  ∧ stdout st'
    = stdout st ++ [AnalyzingCpp file_path]
      ++ (analyze_file fs (cpp_profile cpp_lang_obj cpp_parser) file_path).1
  ∧ raised st' = None.
Proof.
  intros Hst H He. unfold process_file, record_of. rewrite Hst.
  fold (extension_of filename).
  rewrite select_profile_spec, bool_decide_eq_true_2, He by done.
  by destruct (analyze_file _ _ _) as [log record].
Qed.

Lemma analyze_visited st :
  analyze fs cpp_lang_obj cpp_parser st
  = foldl step st (visited (os_walk fs SRC_DIR)).
Proof.
  unfold analyze, visited. generalize (os_walk fs SRC_DIR) as walk.
  intros walk. revert st.
  induction walk as [|[root files] walk IH]; intros st; [done|].
  cbn [foldl mbind list_bind]. rewrite foldl_app, IH. f_equal.
  unfold process_directory. cbn [fst snd].
  generalize st. induction files as [|f files IHf]; intros st'; [done|].
  cbn [foldl fmap list_fmap]. apply IHf.
Qed.

Lemma foldl_raised st l e :
  raised st = Some e → foldl step st l = st.
Proof.
  revert st. induction l as [|[root f] l IH]; intros st Hst; [done|].
  cbn [foldl fst snd]. rewrite (process_file_raised _ _ _ e) by done.
  by apply IH.
Qed.

(** An exception leaves the loops only through the banner of a file
    with a C++-like extension. *)
Lemma foldl_raised_inv st l e :
  raised (foldl step st l) = Some e →
  raised st = Some e
  ∨ ∃ rf, rf ∈ l ∧ recognized rf.2
          ∧ stdout_error fs (OsPath.join rf.1 rf.2) = Some e.
Proof.
  revert st. induction l as [|[root f] l IH]; intros st; [by left|].
  cbn [foldl fst snd]. intros [Hst|(rf & Hin & Hrf)]%IH.
  - destruct (raised st) as [e'|] eqn:Hraised.
    { rewrite (process_file_raised _ _ _ e') in Hst by done. left. congruence. }
    destruct (decide (recognized f)) as [Hf|Hf];
      [|rewrite process_file_skip in Hst by done; congruence].
    destruct (stdout_error fs (OsPath.join root f)) as [e'|] eqn:He.
    + rewrite (process_file_rejected _ _ _ e') in Hst by done.
      cbn [raised] in Hst. injection Hst as ->.
      right. exists (root, f). split_and!; [by left|done..].
    + destruct (process_file_record root st f Hraised Hf He)
        as (_ & _ & _ & Hnone). congruence.
  - right. exists rf. split; [by right|done].
Qed.

Lemma foldl_not_raised st l :
  raised st = None →
  (∀ rf, rf ∈ l → recognized rf.2 →
         stdout_error fs (OsPath.join rf.1 rf.2) = None) →
  raised (foldl step st l) = None.
Proof.
  intros Hst Hl. destruct (raised (foldl step st l)) as [e|] eqn:He; [|done].
  apply foldl_raised_inv in He as [He|(rf & Hin & Hrf & He)]; [congruence|].
  rewrite Hl in He; done.
Qed.


(** *** When standard output takes every path *)

Section printing.
Hypothesis Hprint : ∀ q, stdout_error fs q = None.

Lemma foldl_printing st l :
  raised st = None → raised (foldl step st l) = None.
Proof. intros Hst. by apply foldl_not_raised. Qed.

Lemma get_foldl q st l :
  raised st = None →
  Dict.get q (repo_structure (foldl step st l))
  = if bool_decide (q ∈ ((λ rf, OsPath.join rf.1 rf.2) <$> l) ∧ recognized q)
    then Some (record_of fs cpp_lang_obj cpp_parser q)
    else Dict.get q (repo_structure st).
Proof.
  revert st. induction l as [|[root f] l IH]; intros st Hst.
  - rewrite bool_decide_eq_false_2; [done|]. by intros [?%elem_of_nil _].
  - cbn [foldl]. cbn [fst snd].
    assert (recognized (OsPath.join root f) ↔ recognized f) as Hext
      by (by rewrite PathFacts.extension_join).
    destruct (decide (recognized f)) as [Hf|Hf].
    + destruct (process_file_record root st f Hst Hf (Hprint _))
        as (Hrepo & _ & _ & Hnone).
      rewrite IH by done. rewrite Hrepo, fmap_cons. cbn [fst snd].
      rewrite DictFacts.get_set.
      destruct (decide (OsPath.join root f = q)) as [<-|Hq].
      * rewrite (bool_decide_eq_true_2 (_ = _)) by done.
        rewrite (bool_decide_eq_true_2 (_ ∈ _ :: _ ∧ _));
          [|by split; [left|apply Hext]].
        by destruct (bool_decide _).
      * rewrite (bool_decide_eq_false_2 (_ = _)) by done.
        rewrite (bool_decide_ext (_ ∈ _ :: _ ∧ _)
                   (q ∈ ((λ rf, OsPath.join rf.1 rf.2) <$> l) ∧ recognized q));
          [done|].
        rewrite elem_of_cons. split; [|by intros [? ?]; auto].
        intros [[?|?] ?]; [congruence|done].
    + rewrite process_file_skip by done. rewrite IH by done.
      rewrite fmap_cons. cbn [fst snd].
      rewrite (bool_decide_ext (_ ∈ _ :: _ ∧ _)
                 (q ∈ ((λ rf, OsPath.join rf.1 rf.2) <$> l) ∧ recognized q));
        [done|].
      rewrite elem_of_cons. split; [|by intros [? ?]; auto].
      intros [[->|?] Hr]; [|done]. by apply Hext in Hr.
Qed.

Lemma NoDup_keys_foldl st l :
  raised st = None →
  NoDup (Dict.keys (repo_structure st)) →
  NoDup (Dict.keys (repo_structure (foldl step st l))).
Proof.
  revert st. induction l as [|[root f] l IH]; intros st Hraised Hst; [done|].
  cbn [foldl]. cbn [fst snd].
  destruct (decide (recognized f)) as [Hf|Hf].
  - destruct (process_file_record root st f Hraised Hf (Hprint _))
      as (Hrepo & _ & _ & Hnone).
    apply IH; [done|]. rewrite Hrepo.
    by apply DictFacts.NoDup_keys_set.
  - rewrite process_file_skip by done. by apply IH.
Qed.

Lemma file_count_foldl st l :
  raised st = None →
  file_count (foldl step st l)
  = (file_count st + length (filter (λ rf, recognized rf.2) l))%nat.
Proof.
  revert st. induction l as [|[root f] l IH]; intros st Hraised.
  - cbn [foldl]. rewrite filter_nil. simpl. lia.
  - cbn [foldl]. cbn [fst snd].
    destruct (decide (recognized f)) as [Hf|Hf].
    + destruct (process_file_record root st f Hraised Hf (Hprint _))
        as (_ & Hcount & _ & Hnone).
      rewrite IH by done. rewrite Hcount.
      rewrite filter_cons_True by done. simpl. lia.
    + rewrite process_file_skip by done. rewrite IH by done.
      by rewrite filter_cons_False.
Qed.

Lemma repo_nil_foldl st l :
  raised st = None →
  repo_structure (foldl step st l) = []
  ↔ repo_structure st = [] ∧ filter (λ rf, recognized rf.2) l = [].
Proof.
  revert st. induction l as [|[root f] l IH]; intros st Hraised.
  - cbn [foldl]. rewrite filter_nil. by split; [|intros [? _]].
  - cbn [foldl]. cbn [fst snd].
    destruct (decide (recognized f)) as [Hf|Hf].
    + destruct (process_file_record root st f Hraised Hf (Hprint _))
        as (Hrepo & _ & _ & Hnone).
      rewrite IH by done. rewrite Hrepo.
      rewrite filter_cons_True by done.
      split; [intros [Hset _]; by apply DictFacts.set_not_nil in Hset
             |by intros [_ ?]].
    + rewrite process_file_skip by done. rewrite IH by done.
      by rewrite filter_cons_False.
Qed.

Lemma keys_foldl st l :
  raised st = None →
  NoDup (Dict.keys (repo_structure st)
         ++ filter (λ q, recognized q) ((λ rf, OsPath.join rf.1 rf.2) <$> l)) →
  Dict.keys (repo_structure (foldl step st l))
  = Dict.keys (repo_structure st)
    ++ filter (λ q, recognized q) ((λ rf, OsPath.join rf.1 rf.2) <$> l).
Proof.
  revert st. induction l as [|[root f] l IH]; intros st Hraised.
  - cbn [foldl]. rewrite fmap_nil, filter_nil. by rewrite app_nil_r.
  - cbn [foldl]. rewrite fmap_cons. cbn [fst snd].
    destruct (decide (recognized f)) as [Hf|Hf].
    + rewrite filter_cons_True by (by rewrite PathFacts.extension_join).
      intros Hnd.
      destruct (process_file_record root st f Hraised Hf (Hprint _))
        as (Hrepo & _ & _ & Hnone).
      assert (Dict.keys (repo_structure
                (process_file fs cpp_lang_obj cpp_parser root st f))
              = Dict.keys (repo_structure st) ++ [OsPath.join root f]) as Hk.
      { rewrite Hrepo.
        rewrite DictFacts.keys_set, bool_decide_eq_false_2; [done|].
        apply NoDup_app in Hnd as (_ & Hnd & _). intros Hin.
        apply (Hnd _ Hin). by left. }
      rewrite IH; [|done|]; rewrite Hk, <-app_assoc; done.
    + rewrite filter_cons_False by (by rewrite PathFacts.extension_join).
      rewrite process_file_skip by done. by apply IH.
Qed.

End printing.

Lemma elem_of_visited_paths walk root files filename :
  (root, files) ∈ walk → filename ∈ files →
  OsPath.join root filename ∈ visited_paths walk.
Proof.
  intros Hw Hf. unfold visited_paths, visited.
  apply list_elem_of_fmap. exists (root, filename). split; [done|].
  apply list_elem_of_bind. exists (root, files). split; [|done].
  apply list_elem_of_fmap. by exists filename.
Qed.

End analyze_facts.

(** ** Facts on the mapping and on runs that reach line 158 *)

Section index_facts.
Context {ts : TreeSitter} (fs : FileSystem).
Context (cpp_lang_obj : language) (cpp_parser : parser).

Local Abbreviation recognized p := (extension_of p ∈ VALID_CPP_EXTENSIONS).

(** The mapping of a run holds, for each visited path with a C++-like
    extension, the record of that path, and nothing else. *)
Lemma index_lookup q :
  Dict.get q (index_of fs cpp_lang_obj cpp_parser)
  = if bool_decide (q ∈ visited_paths (os_walk fs SRC_DIR) ∧ recognized q)
    then Some (record_of fs cpp_lang_obj cpp_parser q)
    else None.
Proof.
  unfold index_of, walked. rewrite analyze_visited.
  by rewrite get_foldl.
Qed.

Lemma index_NoDup : NoDup (Dict.keys (index_of fs cpp_lang_obj cpp_parser)).
Proof.
  unfold index_of, walked. rewrite analyze_visited.
  apply NoDup_keys_foldl; [done..|]. apply NoDup_nil_2.
Qed.

Lemma index_nil_iff :
  index_of fs cpp_lang_obj cpp_parser = []
  ↔ filter (λ rf, recognized rf.2) (visited (os_walk fs SRC_DIR)) = [].
Proof.
  unfold index_of, walked. rewrite analyze_visited, repo_nil_foldl by done.
  cbn [initial_state repo_structure lenient os_walk].
  by split; [intros [_ ?]|].
Qed.

Lemma index_keys :
  NoDup (visited_paths (os_walk fs SRC_DIR)) →
  Dict.keys (index_of fs cpp_lang_obj cpp_parser)
  = filter (λ q, recognized q) (visited_paths (os_walk fs SRC_DIR)).
Proof.
  intros Hnd. unfold index_of, walked. rewrite analyze_visited.
  rewrite keys_foldl; [done..|]. cbn [initial_state repo_structure].
  change (Dict.keys (@nil (pystr * entry))) with (@nil pystr).
  rewrite app_nil_l. by apply NoDup_filter.
Qed.

Lemma process_file_lenient root st filename :
  raised (process_file fs cpp_lang_obj cpp_parser root st filename) = None →
  process_file fs cpp_lang_obj cpp_parser root st filename
  = process_file (lenient fs) cpp_lang_obj cpp_parser root st filename.
Proof.
  unfold process_file. destruct (raised st); [done|].
  destruct (select_profile _ _ _) as [pr|]; [|done].
  cbn [lenient stdout_error].
  by destruct (stdout_error fs _).
Qed.

Lemma foldl_lenient st l :
  raised (foldl (λ st rf, process_file fs cpp_lang_obj cpp_parser rf.1 st rf.2)
            st l) = None →
  foldl (λ st rf, process_file fs cpp_lang_obj cpp_parser rf.1 st rf.2) st l
  = foldl (λ st rf,
             process_file (lenient fs) cpp_lang_obj cpp_parser rf.1 st rf.2)
      st l.
Proof.
  revert st. induction l as [|[root f] l IH]; intros st Hst; [done|].
  cbn [foldl fst snd] in *.
  destruct (raised (process_file fs cpp_lang_obj cpp_parser root st f))
    as [e|] eqn:Hstep.
  - rewrite (foldl_raised _ _ _ _ _ e) in Hst by done. congruence.
  - rewrite <-process_file_lenient by done. by apply IH.
Qed.

(** A run whose loops no exception has left has built the mapping, has
    counted the visited files with a C++-like extension, and has printed
    every banner. *)
Lemma walked_lenient :
  raised (walked fs cpp_lang_obj cpp_parser) = None →
  walked fs cpp_lang_obj cpp_parser
  = walked (lenient fs) cpp_lang_obj cpp_parser.
Proof.
  unfold walked. rewrite !analyze_visited. apply foldl_lenient.
Qed.

Lemma walked_index :
  raised (walked fs cpp_lang_obj cpp_parser) = None →
  repo_structure (walked fs cpp_lang_obj cpp_parser)
  = index_of fs cpp_lang_obj cpp_parser.
Proof. intros H. unfold index_of. by rewrite <-walked_lenient. Qed.

Lemma walked_file_count :
  raised (walked fs cpp_lang_obj cpp_parser) = None →
  file_count (walked fs cpp_lang_obj cpp_parser)
  = length (filter (λ rf, recognized rf.2) (visited (os_walk fs SRC_DIR))).
Proof.
  intros H. rewrite walked_lenient by done. unfold walked.
  rewrite analyze_visited, file_count_foldl by done. done.
Qed.



End index_facts.

(** ** Facts on the records and on the run *)

Section record_facts.
Context {ts : TreeSitter}.
Context (cpp_lang_obj : language) (cpp_parser : parser).

Local Abbreviation step fs :=
  (λ st rf, process_file fs cpp_lang_obj cpp_parser rf.1 st rf.2).
Local Abbreviation recognized p := (extension_of p ∈ VALID_CPP_EXTENSIONS).

(** The run reads the file system through [read_bytes] only, once the
    walk is given. *)
Lemma analyze_file_ext fs1 fs2 pr file_path :
  (∀ p, read_bytes fs1 p = read_bytes fs2 p) →
  analyze_file fs1 pr file_path = analyze_file fs2 pr file_path.
Proof.
  intros Hread. unfold analyze_file, try_analyze. by rewrite Hread.
Qed.

Lemma foldl_step_ext fs1 fs2 st l :
  (∀ p, read_bytes fs1 p = read_bytes fs2 p) →
  (∀ p, stdout_error fs1 p = stdout_error fs2 p) →
  foldl (step fs1) st l = foldl (step fs2) st l.
Proof.
  intros Hread Hprint. revert st.
  induction l as [|[root f] l IH]; intros st; [done|].
  cbn [foldl]. rewrite IH. f_equal. unfold process_file.
  destruct (raised st); [done|].
  destruct (select_profile _ _ _) as [pr|]; [|done].
  by rewrite Hprint, (analyze_file_ext fs1 fs2).
Qed.

(** The record of a file that cannot be read, or whose parse raises. *)
Lemma record_of_failure fs file_path e :
  read_bytes fs file_path = Raise e
  ∨ (∃ content_bytes,
       read_bytes fs file_path = Ok content_bytes
       ∧ PyBytes.strip content_bytes ≠ []
       ∧ parser_parse cpp_parser content_bytes = Raise e) →
  analyze_file fs (cpp_profile cpp_lang_obj cpp_parser) file_path
  = ([FileError file_path e],
     [(py "includes", VList []); (py "functions", VList []);
      (py "classes", VList []); (py "error", VStr (exn_str e))]).
Proof.
  assert (failure_entry cpp_template e
          = [(py "includes", VList []); (py "functions", VList []);
             (py "classes", VList []); (py "error", VStr (exn_str e))]) as He
    by (vm_compute; reflexivity).
  unfold analyze_file, try_analyze.
  intros [Hread|(content_bytes & Hread & Hblank & Hparse)]; rewrite Hread.
  - cbn [output_data_template cpp_profile]. by rewrite He.
  - rewrite bool_decide_eq_false_2 by done.
    unfold parse_file_data. cbn [current_parser cpp_profile].
    rewrite Hparse. cbn [output_data_template cpp_profile]. by rewrite He.
Qed.

(** The record of a file whose content is blank. *)
Lemma analyze_file_blank fs file_path content_bytes :
  read_bytes fs file_path = Ok content_bytes →
  PyBytes.strip content_bytes = [] →
  analyze_file fs (cpp_profile cpp_lang_obj cpp_parser) file_path
  = ([EmptyFileSkipped file_path],
     [(py "includes", VList []); (py "functions", VList []);
      (py "classes", VList [])]).
Proof.
  intros Hread Hblank. unfold analyze_file, try_analyze.
  rewrite Hread, bool_decide_eq_true_2 by done.
  f_equal.
Qed.

(** The record of a file that is read and parsed. *)
Lemma record_of_parsed fs file_path content_bytes t :
  read_bytes fs file_path = Ok content_bytes →
  PyBytes.strip content_bytes ≠ [] →
  parser_parse cpp_parser content_bytes = Ok t →
  record_of fs cpp_lang_obj cpp_parser file_path
  = [(py "includes",
      VList (normalize (collected cpp_lang_obj t content_bytes (py "includes"))));
     (py "functions",
      VList (normalize (collected cpp_lang_obj t content_bytes (py "functions"))));
     (py "classes",
      VList (normalize (collected cpp_lang_obj t content_bytes (py "classes"))))].
Proof.
  intros Hread Hblank Hparse. unfold record_of, analyze_file, try_analyze.
  rewrite Hread, bool_decide_eq_false_2 by done.
  cbn [current_parser current_query_definitions current_lang_obj cpp_profile].
  pose proof (parse_file_data_cpp cpp_parser content_bytes cpp_lang_obj t Hparse)
    as Hrec.
  destruct (parse_file_data _ _ _ _) as [log r]. cbn [snd] in Hrec.
  by rewrite Hrec.
Qed.


(** The document of a non-empty mapping is not that of the empty one. *)
Lemma dumps_nil_inv (repo : Dict.t entry) :
  Json.dumps repo = Json.dumps [] → repo = [].
Proof.
  destruct repo as [|kv repo]; [done|].
  unfold Json.dumps, Json.encode_dict.
  change (py "{") with [123]. change (py "{}") with [123; 125].
  cbn [app Json.newline_indent]. discriminate.
Qed.

(** [main], once the language is loaded and the source directory is
    there. *)
Lemma main_loaded_at lang p fs :
  load_languages = Ok (lang, p) →
  path_exists fs SRC_DIR = true →
  let st := walked fs lang p in
  main fs
  = match raised st with
    | Some e =>
      {| printed := stdout st; output_file := NotOpened; uncaught := Some e |}
    | None =>
      match repo_structure st with
      | [] =>
        {| printed := stdout st ++ [NoValidFiles]; output_file := NotOpened;
           uncaught := None |}
      | _ =>
        match write_text fs OUTPUT_JSON (Json.dumps (repo_structure st)) with
        | None =>
          {| printed := stdout st ++ [Saved; AnalyzedCount (file_count st)];
             output_file := Written (Json.dumps (repo_structure st));
             uncaught := None |}
        | Some e =>
          {| printed := stdout st ++ [WriteError e];
             output_file := WriteFailed (Json.dumps (repo_structure st)) e;
             uncaught := None |}
        end
      end
    end.
Proof.
  intros Hload Hsrc. unfold main. rewrite Hload, Hsrc. reflexivity.
Qed.

(** A run that opened the output file had loaded the language, found
    the source directory, and left the loops with a non-empty mapping
    and no exception; the document it wrote or tried to write is that
    of the mapping. *)
Lemma main_opened fs :
  output_file (main fs) ≠ NotOpened →
  ∃ lang p,
    load_languages = Ok (lang, p)
    ∧ path_exists fs SRC_DIR = true
    ∧ raised (walked fs lang p) = None
    ∧ repo_structure (walked fs lang p) = index_of fs lang p
    ∧ index_of fs lang p ≠ []
    ∧ (output_file (main fs) = Written (Json.dumps (index_of fs lang p))
       ∨ ∃ e, output_file (main fs)
              = WriteFailed (Json.dumps (index_of fs lang p)) e).
Proof.
  intros Hopen.
  destruct load_languages as [[lang p]|e] eqn:Hload;
    [|unfold main in Hopen; by rewrite Hload in Hopen].
  destruct (path_exists fs SRC_DIR) eqn:Hsrc;
    [|unfold main in Hopen; by rewrite Hload, Hsrc in Hopen].
  pose proof (main_loaded_at lang p fs Hload Hsrc) as Hmain.
  cbv zeta in Hmain.
  destruct (raised (walked fs lang p)) as [e|] eqn:Hraised;
    [by rewrite Hmain in Hopen|].
  pose proof (walked_index fs lang p Hraised) as Hidx.
  rewrite Hidx in Hmain.
  exists lang, p. split_and!; [done..| |].
  - intros Hnil. rewrite Hnil in Hmain. by rewrite Hmain in Hopen.
  - rewrite Hmain.
    destruct (index_of fs lang p) as [|kv repo];
      [by rewrite Hmain in Hopen|].
    destruct (write_text _ _ _) as [e|]; [right; by exists e|by left].
Qed.

(** The extractor prints about queries only. *)
Lemma category_log_no_path lang_obj t content_bytes acc defs :
  Forall (λ ev, event_path ev = None) acc.1 →
  Forall (λ ev, event_path ev = None)
    (foldl (category_step lang_obj t content_bytes) acc defs).1.
Proof.
  revert acc. induction defs as [|[data_key info] defs IH]; intros acc Hacc.
  - done.
  - cbn [foldl]. apply IH. unfold category_step.
    destruct (run_category _ _ _ _ _) as [texts [e|]]; cbn [fst]; [|done].
    apply Forall_app. split; [done|]. by repeat constructor.
Qed.

Lemma parse_file_data_log_no_path p content_bytes defs lang_obj :
  Forall (λ ev, event_path ev = None)
    (parse_file_data p content_bytes defs lang_obj).1.
Proof.
  unfold parse_file_data. destruct (parser_parse _ _) as [t|e]; [|done].
  pose proof (category_log_no_path lang_obj t content_bytes ([], []) defs) as H.
  destruct (foldl _ _ _) as [log file_data]. by apply H.
Qed.

(** The lines printed about a file name its path. *)
Lemma analyze_file_log fs pr file_path :
  Forall (λ ev, ∀ p, event_path ev = Some p → p = file_path)
    (analyze_file fs pr file_path).1.
Proof.
  assert (∀ log : list event,
            Forall (λ ev, event_path ev = None) log →
            Forall (λ ev, ∀ p, event_path ev = Some p → p = file_path) log)
    as Hnone.
  { intros log Hlog. eapply Forall_impl; [exact Hlog|].
    intros ev Hev p' Hp'. by rewrite Hev in Hp'. }
  unfold analyze_file, try_analyze.
  destruct (read_bytes fs file_path) as [content_bytes|e].
  - case_bool_decide.
    + repeat constructor. by intros p' [= <-].
    + pose proof (parse_file_data_log_no_path (current_parser pr)
                    content_bytes (current_query_definitions pr)
                    (current_lang_obj pr)) as Hlog.
      destruct (parse_file_data _ _ _ _) as [log [record|e]];
        cbn [fst] in *; [by apply Hnone|].
      apply Forall_app. split; [by apply Hnone|].
      repeat constructor. by intros p' [= <-].
  - repeat constructor. by intros p' [= <-].
Qed.

Lemma stdout_foldl fs st l :
  Forall (λ ev, ∀ p, event_path ev = Some p → recognized p) (stdout st) →
  Forall (λ ev, ∀ p, event_path ev = Some p → recognized p)
    (stdout (foldl (step fs) st l)).
Proof.
  revert st. induction l as [|[root f] l IH]; intros st Hst; [done|].
  cbn [foldl]. apply IH. cbn [fst snd]. unfold process_file.
  destruct (raised st); [done|].
  fold (extension_of f). rewrite select_profile_spec.
  case_bool_decide as Hf; [|done].
  destruct (stdout_error fs _); [done|].
  assert (recognized (OsPath.join root f)) as Hp
    by (by rewrite PathFacts.extension_join).
  pose proof (analyze_file_log fs (cpp_profile cpp_lang_obj cpp_parser)
                (OsPath.join root f)) as Hlog.
  destruct (analyze_file _ _ _) as [log record]. cbn [fst stdout] in *.
  apply Forall_app. split; [done|]. apply Forall_app. split.
  - repeat constructor. by intros p' [= <-].
  - eapply Forall_impl; [exact Hlog|]. intros ev Hev p' Hp'.
    by rewrite (Hev p' Hp').
Qed.

End record_facts.

(** Every line a run prints about a file is about a file with a C++-like
    extension. *)
Lemma main_printed_recognized `{ts : TreeSitter} (fs : FileSystem) ev p :
  ev ∈ printed (main fs) → event_path ev = Some p →
  extension_of p ∈ VALID_CPP_EXTENSIONS.
Proof.
  assert (∀ log : list event,
            Forall (λ ev, event_path ev = None) log →
            Forall (λ ev, ∀ p, event_path ev = Some p
                               → extension_of p ∈ VALID_CPP_EXTENSIONS) log)
    as Hnone.
  { intros log Hlog. eapply Forall_impl; [exact Hlog|].
    intros ev' Hev p' Hp'. by rewrite Hev in Hp'. }
  assert (Forall (λ ev, ∀ p, event_path ev = Some p
                             → extension_of p ∈ VALID_CPP_EXTENSIONS)
            (printed (main fs))) as Hall.
  { unfold main.
    destruct load_languages as [[lang pa]|e];
      [|by apply Hnone; repeat constructor].
    destruct (path_exists fs SRC_DIR); cbn [negb];
      [|by apply Hnone; repeat constructor].
    pose proof (stdout_foldl lang pa fs
                  (initial_state [LoadingLanguages; CppLoaded; AnalyzingRepo])
                  (visited (os_walk fs SRC_DIR))) as Hout.
    rewrite <-analyze_visited in Hout.
    assert (Forall (λ ev, event_path ev = None)
              [LoadingLanguages; CppLoaded; AnalyzingRepo]) as Hinit
      by (by repeat constructor).
    apply Hnone in Hinit. specialize (Hout Hinit).
    destruct (raised _); [done|].
    destruct (repo_structure _) as [|kv repo]; cbn [printed].
    - apply Forall_app. split; [done|]. by apply Hnone; repeat constructor.
    - destruct (write_text _ _ _) as [e|]; cbn [printed];
        (apply Forall_app; split; [done|]);
        by apply Hnone; repeat constructor. }
  intros Hev Hp. rewrite Forall_forall in Hall. by eapply Hall.
Qed.

(** ** Facts on what the loops print *)

Section print_facts.
Context {ts : TreeSitter}.
Context (cpp_lang_obj : language) (cpp_parser : parser).

Local Abbreviation step fs :=
  (λ st rf, process_file fs cpp_lang_obj cpp_parser rf.1 st rf.2).
Local Abbreviation recognized p := (extension_of p ∈ VALID_CPP_EXTENSIONS).




Lemma category_log_loop lang_obj t content_bytes acc defs :
  Forall (λ ev, is_loop_event ev = true) acc.1 →
  Forall (λ ev, is_loop_event ev = true)
    (foldl (category_step lang_obj t content_bytes) acc defs).1.
Proof.
  revert acc. induction defs as [|[data_key info] defs IH]; intros acc Hacc;
    [done|].
  cbn [foldl]. apply IH. unfold category_step.
  destruct (run_category _ _ _ _ _) as [texts [e|]]; cbn [fst]; [|done].
  apply Forall_app. split; [done|]. by repeat constructor.
Qed.

Lemma analyze_file_log_loop fs pr file_path :
  Forall (λ ev, is_loop_event ev = true) (analyze_file fs pr file_path).1.
Proof.
  unfold analyze_file, try_analyze.
  destruct (read_bytes fs file_path) as [content_bytes|e];
    [|by repeat constructor].
  case_bool_decide; [by repeat constructor|].
  unfold parse_file_data.
  destruct (parser_parse _ _) as [t|e]; [|by repeat constructor].
  pose proof (category_log_loop (current_lang_obj pr) t content_bytes ([], [])
                (current_query_definitions pr)) as Hlog.
  destruct (foldl _ _ _) as [log file_data]. by apply Hlog.
Qed.

(** What the loops add to what was printed are lines of the loops. *)
Lemma stdout_foldl_loop fs st l :
  ∃ log, stdout (foldl (step fs) st l) = stdout st ++ log
         ∧ Forall (λ ev, is_loop_event ev = true) log.
Proof.
  revert st. induction l as [|[root f] l IH]; intros st.
  - exists []. by rewrite app_nil_r.
  - cbn [foldl]. destruct (IH (process_file fs cpp_lang_obj cpp_parser
                                 (root, f).1 st (root, f).2))
      as (log & -> & Hlog).
    cbn [fst snd]. unfold process_file.
    destruct (raised st); [by exists log|].
    destruct (select_profile _ _ _) as [pr|] eqn:Hpr; [|by exists log].
    destruct (stdout_error fs _); [by exists log|].
    pose proof (analyze_file_log_loop fs pr (OsPath.join root f)) as Hfile.
    destruct (analyze_file _ _ _) as [log' record]. cbn [fst stdout] in *.
    exists ((banner pr (OsPath.join root f) :: log') ++ log).
    split; [by rewrite <-!app_assoc|].
    apply Forall_app. split; [|done]. constructor; [|done].
    unfold select_profile in Hpr.
    repeat case_bool_decide; simplify_eq; done.
Qed.

(** Files without a C++-like extension leave the state as it is. *)
Lemma foldl_unrecognized fs st l :
  filter (λ rf, recognized rf.2) l = [] →
  foldl (step fs) st l = st.
Proof.
  revert st. induction l as [|[root f] l IH]; intros st; [done|].
  destruct (decide (recognized f)) as [Hf|Hf].
  - by rewrite filter_cons_True.
  - rewrite filter_cons_False by done. intros Hl. cbn [foldl fst snd].
    rewrite process_file_skip by done. by apply IH.
Qed.

(** A run whose loops end with an empty mapping and no exception has
    printed nothing in them, and has counted no file. *)
Lemma walked_empty fs :
  raised (walked fs cpp_lang_obj cpp_parser) = None →
  repo_structure (walked fs cpp_lang_obj cpp_parser) = [] →
  walked fs cpp_lang_obj cpp_parser
  = initial_state [LoadingLanguages; CppLoaded; AnalyzingRepo].
Proof.
  intros Hraised Hrepo. rewrite walked_index in Hrepo by done.
  apply index_nil_iff in Hrepo.
  unfold walked. rewrite analyze_visited. by apply foldl_unrecognized.
Qed.

(** A line that is not of the loops is not printed in them. *)
Lemma walked_not_printed fs ev :
  is_loop_event ev = false →
  ev ∉ [LoadingLanguages; CppLoaded; AnalyzingRepo] →
  ev ∉ stdout (walked fs cpp_lang_obj cpp_parser).
Proof.
  intros Hev Hinit. unfold walked. rewrite analyze_visited.
  destruct (stdout_foldl_loop fs
              (initial_state [LoadingLanguages; CppLoaded; AnalyzingRepo])
              (visited (os_walk fs SRC_DIR))) as (log & -> & Hlog).
  cbn [initial_state stdout]. intros [?|Hin]%elem_of_app; [done|].
  rewrite Forall_forall in Hlog. apply Hlog in Hin. congruence.
Qed.




End print_facts.

(** ** Facts on the JSON text *)

Module JsonFacts.
Import Json.

Local Abbreviation ascii_only := (Forall (λ c : N, c < 128)).

Lemma hex_digit_ascii n : hex_digit (N.land n 15) < 128.
Proof.
  assert (N.land n 15 < 16) as Hn.
  { change 15 with (N.ones 4). rewrite N.land_ones. by apply N.mod_lt. }
  unfold hex_digit. destruct (N.ltb_spec (N.land n 15) 10); lia.
Qed.

Lemma u_escape_ascii n : ascii_only (u_escape n).
Proof.
  unfold u_escape. apply Forall_app. split.
  - by_compute.
  - repeat constructor; apply hex_digit_ascii.
Qed.

Lemma escape_char_ascii c : ascii_only (escape_char c).
Proof.
  unfold escape_char.
  repeat (match goal with
          | |- context [if ?b then _ else _] => destruct b eqn:?
          end; [by_compute|]).
  destruct ((32 <=? c) && (c <=? 126)) eqn:Hc.
  - apply andb_prop in Hc as [_ Hhi%N.leb_le]. repeat constructor. lia.
  - destruct (c <? 65536); [apply u_escape_ascii|].
    apply Forall_app. split; apply u_escape_ascii.
Qed.

Lemma encode_str_ascii s : ascii_only (encode_str s).
Proof.
  unfold encode_str. constructor; [lia|]. apply Forall_app. split.
  - apply Forall_bind, Forall_forall. intros c _. apply escape_char_ascii.
  - by_compute.
Qed.

Lemma newline_indent_ascii level : ascii_only (newline_indent level).
Proof.
  unfold newline_indent. constructor; [lia|].
  apply Forall_replicate. lia.
Qed.

Lemma join_chunks_ascii separator chunks :
  ascii_only separator → Forall ascii_only chunks →
  ascii_only (join_chunks separator chunks).
Proof.
  intros Hsep. induction 1 as [|c chunks Hc Hchunks IH]; [done|].
  cbn [join_chunks]. destruct chunks as [|c' chunks]; [done|].
  apply Forall_app. split; [done|]. apply Forall_app. by split.
Qed.

Lemma encode_list_ascii level l : ascii_only (encode_list level l).
Proof.
  unfold encode_list. destruct l as [|x l]; [by_compute|].
  apply Forall_app. split; [by_compute|].
  apply Forall_app. split; [apply newline_indent_ascii|].
  apply Forall_app. split;
    [|apply Forall_app; split; [apply newline_indent_ascii|by_compute]].
  apply join_chunks_ascii.
  - apply Forall_app. split; [by_compute|apply newline_indent_ascii].
  - apply Forall_fmap, Forall_forall. intros s _. apply encode_str_ascii.
Qed.

Lemma encode_dict_ascii {V} (encode_item : nat → V → pystr) level d :
  (∀ n v, ascii_only (encode_item n v)) →
  ascii_only (encode_dict encode_item level d).
Proof.
  intros Hitem. unfold encode_dict. destruct d as [|kv d]; [by_compute|].
  apply Forall_app. split; [by_compute|].
  apply Forall_app. split; [apply newline_indent_ascii|].
  apply Forall_app. split;
    [|apply Forall_app; split; [apply newline_indent_ascii|by_compute]].
  apply join_chunks_ascii.
  - apply Forall_app. split; [by_compute|apply newline_indent_ascii].
  - apply Forall_fmap, Forall_forall. intros [k v] _. cbn [fst snd].
    apply Forall_app. split; [apply encode_str_ascii|].
    apply Forall_app. split; [by_compute|apply Hitem].
Qed.

Lemma encode_value_ascii level v : ascii_only (encode_value level v).
Proof.
  destruct v as [l|s|]; cbn [encode_value];
    [apply encode_list_ascii|apply encode_str_ascii|by_compute].
Qed.

(** The document is ASCII text: the bytes of the file are its code
    points, one byte each. *)
Lemma dumps_ascii repo : ascii_only (dumps repo).
Proof.
  unfold dumps. apply encode_dict_ascii. intros n record.
  apply encode_dict_ascii, encode_value_ascii.
Qed.

End JsonFacts.

(** ** The UTF-8 scan, step by step *)

Module ScanFacts.
Import PyBytes.

Ltac lia_euclid := zify; Z.to_euclidean_division_equations; lia.

Lemma byte_of_to_N (b : byte) n : n = Byte.to_N b → byte_of n = b.
Proof. intros ->. unfold byte_of. by rewrite Byte.of_to_N. Qed.

Lemma cons_byte_of (b : byte) n (l l' : pybytes) :
  n = Byte.to_N b → l = l' → b :: l = byte_of n :: l'.
Proof. intros Hn ->. by rewrite (byte_of_to_N b n). Qed.

Lemma to_N_lt_256 (b : byte) : Byte.to_N b < 256.
Proof. pose proof (Byte.to_N_bounded b). lia. Qed.

Lemma is_continuation_range (b : byte) :
  is_continuation (Byte.to_N b) = true →
  0x80 ≤ Byte.to_N b ∧ Byte.to_N b < 0xC0.
Proof.
  rewrite DecodeFacts.is_continuation_byte.
  intros [H1 H2]%andb_prop. split; [by apply N.leb_le|by apply N.ltb_lt].
Qed.

Ltac set_aside why n :=
  right; exists why, n; split_and!; [lia|lia|simpl; lia|reflexivity].

Ltac read_char c rest :=
  left; exists c, rest; unfold is_scalar, utf8_encode_char;
  split_and!;
  [lia_euclid
  |repeat match goal with
          | |- context [N.ltb ?a ?b] =>
            destruct (N.ltb_spec a b); [try (exfalso; lia_euclid)|try (exfalso; lia_euclid)]
          end;
   cbn [app]; repeat (apply cons_byte_of; [lia_euclid|]); reflexivity
  |rewrite ?N.shiftl_mul_pow2; reflexivity].

Lemma utf8_scan_step b0 r0 : scan_step (b0 :: r0).
Proof.
  pose proof (to_N_lt_256 b0) as Hb0.
  unfold scan_step. cbn [utf8_scan]. cbv zeta.
  destruct (N.ltb_spec (Byte.to_N b0) 0x80) as [H1|H1].
  { read_char (Byte.to_N b0) r0. }
  destruct (N.ltb_spec (Byte.to_N b0) 0xC2) as [H2|H2].
  { set_aside InvalidStart 1%nat. }
  destruct (N.ltb_spec (Byte.to_N b0) 0xE0) as [H3|H3].
  { destruct r0 as [|b1 r1]; [set_aside UnexpectedEnd 1%nat|].
    destruct (is_continuation (Byte.to_N b1)) eqn:Hc1; cbn [negb];
      [|set_aside InvalidContinuation 1%nat].
    apply is_continuation_range in Hc1.
    read_char (Byte.to_N b0 * 64 + Byte.to_N b1 - (192 * 64 + 128)) r1. }
  destruct (N.ltb_spec (Byte.to_N b0) 0xF0) as [H4|H4].
  { destruct r0 as [|b1 r1]; [set_aside UnexpectedEnd 1%nat|].
    destruct (is_continuation (Byte.to_N b1)) eqn:Hc1; cbn [negb orb];
      [|set_aside InvalidContinuation 1%nat].
    apply is_continuation_range in Hc1.
    destruct (if Byte.to_N b1 <? 160 then Byte.to_N b0 =? 224
              else Byte.to_N b0 =? 237) eqn:Hover;
      [set_aside InvalidContinuation 1%nat|].
    assert (¬ (Byte.to_N b1 < 160 ∧ Byte.to_N b0 = 224)
            ∧ ¬ (160 ≤ Byte.to_N b1 ∧ Byte.to_N b0 = 237)) as [Hlo Hhi].
    { destruct (N.ltb_spec (Byte.to_N b1) 160);
        apply N.eqb_neq in Hover; split; lia. }
    destruct r1 as [|b2 r2]; [set_aside UnexpectedEnd 2%nat|].
    destruct (is_continuation (Byte.to_N b2)) eqn:Hc2; cbn [negb];
      [|set_aside InvalidContinuation 2%nat].
    apply is_continuation_range in Hc2.
    read_char (Byte.to_N b0 * 4096 + Byte.to_N b1 * 64 + Byte.to_N b2
               - (224 * 4096 + 128 * 64 + 128)) r2. }
  destruct (N.ltb_spec (Byte.to_N b0) 0xF5) as [H5|H5];
    [|set_aside InvalidStart 1%nat].
  destruct r0 as [|b1 r1]; [set_aside UnexpectedEnd 1%nat|].
  destruct (is_continuation (Byte.to_N b1)) eqn:Hc1; cbn [negb orb];
    [|set_aside InvalidContinuation 1%nat].
  apply is_continuation_range in Hc1.
  destruct (if Byte.to_N b1 <? 144 then Byte.to_N b0 =? 240
            else Byte.to_N b0 =? 244) eqn:Hover;
    [set_aside InvalidContinuation 1%nat|].
  assert (¬ (Byte.to_N b1 < 144 ∧ Byte.to_N b0 = 240)
          ∧ ¬ (144 ≤ Byte.to_N b1 ∧ Byte.to_N b0 = 244)) as [Hlo Hhi].
  { destruct (N.ltb_spec (Byte.to_N b1) 144);
      apply N.eqb_neq in Hover; split; lia. }
  destruct r1 as [|b2 r2]; [set_aside UnexpectedEnd 2%nat|].
  destruct (is_continuation (Byte.to_N b2)) eqn:Hc2; cbn [negb];
    [|set_aside InvalidContinuation 2%nat].
  apply is_continuation_range in Hc2.
  destruct r2 as [|b3 r3]; [set_aside UnexpectedEnd 3%nat|].
  destruct (is_continuation (Byte.to_N b3)) eqn:Hc3; cbn [negb];
    [|set_aside InvalidContinuation 3%nat].
  apply is_continuation_range in Hc3.
  read_char (Byte.to_N b0 * 262144 + Byte.to_N b1 * 4096 + Byte.to_N b2 * 64
             + Byte.to_N b3 - (240 * 262144 + 128 * 4096 + 128 * 64 + 128)) r3.
Qed.

Lemma utf8_encode_char_length c :
  (1 ≤ length (utf8_encode_char c) ≤ 4)%nat.
Proof.
  unfold utf8_encode_char.
  repeat match goal with
         | |- context [if ?b then _ else _] => destruct b
         end; simpl; lia.
Qed.

(** Induction along the scan. *)
Lemma scan_ind (P : pybytes → Prop) :
  P [] →
  (∀ c rest,
     is_scalar c →
     utf8_scan (utf8_encode_char c ++ rest) = Char c :: utf8_scan rest →
     P rest → P (utf8_encode_char c ++ rest)) →
  (∀ why n bs,
     (1 ≤ n ≤ 3)%nat → (n ≤ length bs)%nat →
     utf8_scan bs = Undecodable why n :: utf8_scan (drop n bs) →
     P (drop n bs) → P bs) →
  ∀ bs, P bs.
Proof.
  intros Hnil Hchar Hbad bs.
  assert (∀ k bs, (length bs < k)%nat → P bs) as Hall;
    [|apply (Hall (S (length bs))); lia].
  clear bs. intros k. induction k as [|k IH]; intros bs Hk; [lia|].
  destruct bs as [|b0 r0]; [done|].
  destruct (utf8_scan_step b0 r0)
    as [(c & rest & Hc & Hbs & Hscan)|(why & n & Hn & Hlen & Hscan)].
  - rewrite Hbs in *. apply Hchar; [done..|]. apply IH.
    pose proof (utf8_encode_char_length c). rewrite length_app in Hk. lia.
  - apply (Hbad why n); [done..|]. apply IH.
    rewrite length_drop. lia.
Qed.

Lemma kept_chars_cons_Char c items :
  kept_chars (Char c :: items) = c :: kept_chars items.
Proof. reflexivity. Qed.

Lemma kept_chars_cons_Undecodable why n items :
  kept_chars (Undecodable why n :: items) = kept_chars items.
Proof. reflexivity. Qed.

(** The text is no longer than the bytes it is decoded from. *)
Lemma kept_chars_scan_length bs :
  (length (kept_chars (utf8_scan bs)) ≤ length bs)%nat.
Proof.
  induction bs as [|c rest Hc Hscan IH|why n bs Hn Hlen Hscan IH] using scan_ind.
  - done.
  - rewrite Hscan, kept_chars_cons_Char, length_app. simpl.
    pose proof (utf8_encode_char_length c). lia.
  - rewrite Hscan, kept_chars_cons_Undecodable.
    rewrite length_drop in IH. lia.
Qed.

(** The scan yields scalar values only. *)
Lemma kept_chars_scan_scalar bs : Forall is_scalar (kept_chars (utf8_scan bs)).
Proof.
  induction bs as [|c rest Hc Hscan IH|why n bs Hn Hlen Hscan IH] using scan_ind.
  - constructor.
  - rewrite Hscan, kept_chars_cons_Char. by constructor.
  - by rewrite Hscan, kept_chars_cons_Undecodable.
Qed.

(** Bytes that the strict decoder accepts are the encoding of the text
    they decode to. *)
Lemma strict_decode_encode bs s :
  decode_utf8 Strict bs = Ok s → utf8_encode s = bs.
Proof.
  unfold decode_utf8. revert s.
  induction bs as [|c rest Hc Hscan IH|why n bs Hn Hlen Hscan IH] using scan_ind;
    intros s.
  - by intros [= <-].
  - rewrite Hscan. cbn [handle].
    destruct (handle Strict (utf8_scan rest)) as [s'|e] eqn:Hrest; [|done].
    intros [= <-]. unfold utf8_encode. cbn [mbind list_bind].
    f_equal. by apply IH.
  - rewrite Hscan. cbn [handle]. done.
Qed.





End ScanFacts.

(** ** The claims *)

Section claims.
Import Fixtures.

(** C6. The normalization of a category list ([sorted(list(set(l)))])
    keeps exactly the members of the list, each once, in ascending
    lexicographic order; it is idempotent, its result has no duplicates,
    and it gives the same result on every permutation of its input, in
    whatever order the set lists its members. *)
Theorem normalize_dedup_sort :
  (∀ L x, x ∈ normalize L ↔ x ∈ L) ∧
  (∀ L, Sorted PyStr.le (normalize L)) ∧
  (∀ L, normalize (normalize L) = normalize L) ∧
  (∀ L, NoDup (normalize L)) ∧
  (∀ L P, P ≡ₚ L → normalize P = normalize L) ∧
  (∀ L S, NoDup S → (∀ x, x ∈ S ↔ x ∈ L) → sorted S = normalize L).
Proof.
  split_and!.
  - apply elem_of_normalize.
  - apply Sorted_normalize.
  - apply normalize_idemp.
  - apply NoDup_normalize.
  - intros L P HP. apply normalize_same_members.
    intros x. by rewrite HP.
  - apply normalize_any_listing.
Qed.

Lemma normalize_dedup_sort_witness :
  normalize [py "b"; py "a"; py "b"] = [py "a"; py "b"]
  ∧ normalize [py "b"; py "b"; py "a"] = normalize [py "b"; py "a"; py "b"]
  ∧ sorted [py "b"; py "a"] = normalize [py "b"; py "a"; py "b"].
Proof.
  destruct normalize_dedup_sort as (_ & _ & _ & _ & Hperm & Hlisting).
  split_and!.
  - vm_compute. reflexivity.
  - apply Hperm. apply perm_skip, perm_swap.
  - apply Hlisting; [by_compute|].
    intros x. rewrite !elem_of_cons, !elem_of_nil. tauto.
Defined.




(** C7. For the [includes] and [imports] categories the extractor adds
    each captured text with the characters double quote, [<] and [>]
    taken off its edges (and only those, and only at the edges); the
    other categories get the text as it is. A quoted and a bracketed
    inclusion of [foo/bar.h] both give the bare path, also through the
    whole extractor. *)
Theorem include_paths_are_stripped :
  (∀ data_key content_bytes nodes acc,
     data_key = py "includes" ∨ data_key = py "imports" →
     add_nodes data_key content_bytes nodes acc
     = (acc ++ ((λ node,
                   PyStr.strip path_delimiters
                     (kept_chars (PyBytes.utf8_scan
                        (PyBytes.slice (start_byte node) (end_byte node)
                           content_bytes)))) <$> nodes), None))
  ∧ (∀ content_bytes nodes acc,
       add_nodes (py "functions") content_bytes nodes acc
       = (acc ++ ((λ node,
                     kept_chars (PyBytes.utf8_scan
                       (PyBytes.slice (start_byte node) (end_byte node)
                          content_bytes))) <$> nodes), None))
  ∧ (∀ s, ∃ pre post,
       s = pre ++ PyStr.strip path_delimiters s ++ post
       ∧ Forall (λ c, c ∈ path_delimiters) pre
       ∧ Forall (λ c, c ∈ path_delimiters) post
       ∧ (∀ c rest, PyStr.strip path_delimiters s = c :: rest
                    → c ∉ path_delimiters)
       ∧ (∀ c rest, PyStr.strip path_delimiters s = rest ++ [c]
                    → c ∉ path_delimiters))
  ∧ PyStr.strip path_delimiters (34 :: py "foo/bar.h" ++ [34]) = py "foo/bar.h"
  ∧ PyStr.strip path_delimiters (py "<foo/bar.h>") = py "foo/bar.h"
  ∧ (@parse_file_data include_engine tt two_includes
       cpp_query_definitions (Some tt)).2
    = Ok [(py "includes", VList [py "foo/bar.h"]);
          (py "functions", VList []); (py "classes", VList [])].
Proof.
  split_and!.
  - intros data_key content_bytes nodes acc Hkey.
    rewrite add_nodes_spec. do 2 f_equal.
    apply list_fmap_ext. intros _ node _. unfold added_text.
    destruct Hkey as [-> | ->]; reflexivity.
  - intros content_bytes nodes acc. by rewrite add_nodes_spec.
  - intros s. apply StripFacts.strip_split.
  - vm_compute. reflexivity.
  - vm_compute. reflexivity.
  - vm_compute. reflexivity.
Qed.

Lemma include_paths_are_stripped_witness :
  add_nodes (py "includes") two_includes
    [{| start_byte := 9; end_byte := 20 |};
     {| start_byte := 30; end_byte := 41 |}] []
  = ([py "foo/bar.h"; py "foo/bar.h"], None).
Proof.
  rewrite (proj1 include_paths_are_stripped (py "includes") two_includes
             _ [] (or_introl eq_refl)).
  vm_compute. reflexivity.
Defined.




(** C8. A file whose extension is in neither extension set, such as
    [README.md], gets no record: its path is not a key of the mapping,
    and the run prints nothing about it, so no error is recorded for it
    either. *)
Theorem unrecognized_extension_has_no_record `{ts : TreeSitter}
    (fs : FileSystem) (cpp_lang_obj : language) (cpp_parser : parser)
    (root filename : pystr) :
  extension_of filename ∉ VALID_CPP_EXTENSIONS →
  extension_of filename ∉ VALID_PYTHON_EXTENSIONS →
  let file_path := OsPath.join root filename in
  let index := index_of fs cpp_lang_obj cpp_parser in
  (file_path ∉ Dict.keys index)
  ∧ Dict.get file_path index = None
  ∧ (∀ ev, ev ∈ printed (main fs) → event_path ev ≠ Some file_path)
  ∧ extension_of (py "README.md") = py ".md"
  ∧ py ".md" ∉ VALID_CPP_EXTENSIONS ∪ VALID_PYTHON_EXTENSIONS.
Proof.
  intros Hcpp _ file_path index.
  assert (extension_of file_path ∉ VALID_CPP_EXTENSIONS) as Hpath
    by (unfold file_path; by rewrite PathFacts.extension_join).
  assert (Dict.get file_path index = None) as Hget.
  { unfold index. rewrite index_lookup, bool_decide_eq_false_2; [done|].
    by intros [_ Hext]. }
  split_and!; [by apply DictFacts.not_elem_of_keys|done| | |by_compute].
  - intros ev Hev Hp. apply Hpath. by eapply main_printed_recognized.
  - vm_compute. reflexivity.
Qed.

Lemma unrecognized_extension_has_no_record_witness :
  (py "./src/README.md" ∉ Dict.keys (@index_of silent_engine mixed_fs tt tt))
  ∧ Dict.get (py "./src/README.md") (@index_of silent_engine mixed_fs tt tt)
    = None.
Proof.
  destruct (@unrecognized_extension_has_no_record silent_engine mixed_fs tt tt
              (py "./src") (py "README.md")) as (Hkey & Hget & _).
  - by_compute.
  - by_compute.
  - split; [exact Hkey|exact Hget].
Defined.

(** C10. The Python parser is left unset although the [.py] extension
    and the Python queries are registered; so a file whose extension is
    [.py] selects no profile, and its path is never a key of the
    mapping. *)
Theorem python_files_are_never_recorded `{ts : TreeSitter}
    (fs : FileSystem) (cpp_lang_obj : language) (cpp_parser : parser)
    (root filename : pystr) :
  extension_of filename = py ".py" →
  let file_path := OsPath.join root filename in
  let index := index_of fs cpp_lang_obj cpp_parser in
  python_parser = None
  ∧ extension_of filename ∈ VALID_PYTHON_EXTENSIONS
  ∧ Dict.keys python_query_definitions
    = [py "imports"; py "functions"; py "classes"]
  ∧ select_profile cpp_lang_obj cpp_parser (extension_of filename) = None
  ∧ (file_path ∉ Dict.keys index)
  ∧ Dict.get file_path index = None.
Proof.
  intros Hext file_path index.
  assert (extension_of filename ∉ VALID_CPP_EXTENSIONS) as Hcpp
    by (rewrite Hext; by_compute).
  assert (Dict.get file_path index = None) as Hget.
  { unfold index. rewrite index_lookup, bool_decide_eq_false_2; [done|].
    intros [_ Hp]. unfold file_path in Hp.
    by rewrite PathFacts.extension_join in Hp. }
  split_and!; [done|rewrite Hext; by_compute|done| | |done].
  - by rewrite select_profile_spec, bool_decide_eq_false_2.
  - by apply DictFacts.not_elem_of_keys.
Qed.

Lemma python_files_are_never_recorded_witness :
  py "./src/x.py" ∉ Dict.keys (@index_of silent_engine mixed_fs tt tt).
Proof.
  destruct (@python_files_are_never_recorded silent_engine mixed_fs tt tt
              (py "./src") (py "x.py")) as (_ & _ & _ & _ & Hkey & _).
  - vm_compute. reflexivity.
  - exact Hkey.
Defined.

(** C9, as the code has it. The run opens the output file only with
    a mapping that is not empty: the document of an empty mapping is
    never written, nor is writing it attempted. When no file produced a
    record, the line that no valid source files were found is printed
    in one case only: the language was loaded, the source directory was
    found and no exception left the loops; the run has then printed
    nothing about any file and has counted none (without an exception,
    the mapping is empty exactly when the count is zero). When the
    language cannot be loaded or the source directory is missing, the
    run has returned before, with the line of that failure and without
    that one. *)
Theorem no_records_no_document `{ts : TreeSitter} (fs : FileSystem) :
  (∀ e, output_file (main fs) ≠ Written (Json.dumps [])
        ∧ output_file (main fs) ≠ WriteFailed (Json.dumps []) e)
  ∧ (output_file (main fs) ≠ NotOpened →
     ∃ cpp_lang_obj cpp_parser,
       load_languages = Ok (cpp_lang_obj, cpp_parser)
       ∧ path_exists fs SRC_DIR = true
       ∧ raised (walked fs cpp_lang_obj cpp_parser) = None
       ∧ repo_structure (walked fs cpp_lang_obj cpp_parser) ≠ [])
  ∧ (∀ cpp_lang_obj cpp_parser,
       load_languages = Ok (cpp_lang_obj, cpp_parser) →
       path_exists fs SRC_DIR = true →
       raised (walked fs cpp_lang_obj cpp_parser) = None →
       repo_structure (walked fs cpp_lang_obj cpp_parser) = [] →
       main fs
       = {| printed :=
              [LoadingLanguages; CppLoaded; AnalyzingRepo; NoValidFiles];
            output_file := NotOpened; uncaught := None |}
       ∧ file_count (walked fs cpp_lang_obj cpp_parser) = 0%nat)
  ∧ (∀ cpp_lang_obj cpp_parser,
       raised (walked fs cpp_lang_obj cpp_parser) = None →
       repo_structure (walked fs cpp_lang_obj cpp_parser) = []
       ↔ file_count (walked fs cpp_lang_obj cpp_parser) = 0%nat)
  ∧ (NoValidFiles ∈ printed (main fs) →
     ∃ cpp_lang_obj cpp_parser,
       load_languages = Ok (cpp_lang_obj, cpp_parser)
       ∧ path_exists fs SRC_DIR = true
       ∧ raised (walked fs cpp_lang_obj cpp_parser) = None
       ∧ repo_structure (walked fs cpp_lang_obj cpp_parser) = [])
  ∧ (∀ e, load_languages = Raise e →
          main fs
          = {| printed := [LoadingLanguages; LoadError e; EnsureInstalled];
               output_file := NotOpened; uncaught := None |})
  ∧ (∀ cpp_lang_obj cpp_parser,
       load_languages = Ok (cpp_lang_obj, cpp_parser) →
       path_exists fs SRC_DIR = false →
       main fs
       = {| printed := [LoadingLanguages; CppLoaded; SrcDirNotFound];
            output_file := NotOpened; uncaught := None |}).
Proof.
  split_and!.
  - intros e.
    assert (∀ d, (output_file (main fs) = Written d
                  ∨ output_file (main fs) = WriteFailed d e) →
                 d ≠ Json.dumps []) as Hdoc.
    { intros d Hd.
      destruct (main_opened fs) as (lang & p & _ & _ & _ & _ & Hne & Hout).
      { by destruct Hd as [-> | ->]. }
      intros ->. apply Hne, dumps_nil_inv.
      destruct Hd as [Hd|Hd], Hout as [Hout|[e' Hout]];
        rewrite Hd in Hout; by simplify_eq. }
    split; intros Hout; (eapply Hdoc; [|done]); [by left|by right].
  - intros Hopen.
    destruct (main_opened fs Hopen)
      as (lang & p & Hload & Hsrc & Hraised & Hrepo & Hne & _).
    exists lang, p. by rewrite Hrepo.
  - intros lang p Hload Hsrc Hraised Hrepo.
    rewrite (main_loaded_at lang p fs Hload Hsrc).
    rewrite (walked_empty lang p fs Hraised Hrepo). done.
  - intros lang p Hraised.
    rewrite (walked_index fs lang p Hraised), (index_nil_iff fs lang p).
    rewrite (walked_file_count fs lang p Hraised).
    by rewrite length_zero_iff_nil.
  - intros Hprinted.
    destruct load_languages as [[lang p]|e] eqn:Hload.
    + destruct (path_exists fs SRC_DIR) eqn:Hsrc.
      * rewrite (main_loaded_at lang p fs Hload Hsrc) in Hprinted.
        assert (NoValidFiles ∉ stdout (walked fs lang p)) as Hloops.
        { apply walked_not_printed; [done|].
          rewrite !not_elem_of_cons. split_and!; [done..|].
          apply not_elem_of_nil. }
        exists lang, p. split_and!; [done..| |].
        -- by destruct (raised (walked fs lang p)).
        -- destruct (raised (walked fs lang p)); [done|].
           destruct (repo_structure (walked fs lang p)) as [|kv repo]; [done|].
           exfalso.
           destruct (write_text _ _ _) as [e|]; cbn [printed] in Hprinted;
             apply elem_of_app in Hprinted as [Hprinted|Hprinted];
             [done| |done|];
             rewrite ?elem_of_cons, elem_of_nil in Hprinted;
             intuition discriminate.
      * unfold main in Hprinted. rewrite Hload, Hsrc in Hprinted.
        cbn [negb printed] in Hprinted.
        rewrite !elem_of_cons, elem_of_nil in Hprinted.
        intuition discriminate.
    + unfold main in Hprinted. rewrite Hload in Hprinted.
      cbn [printed] in Hprinted.
      rewrite !elem_of_cons, elem_of_nil in Hprinted.
      intuition discriminate.
  - intros e Hload. unfold main. by rewrite Hload.
  - intros lang p Hload Hsrc. unfold main. by rewrite Hload, Hsrc.
Qed.

Lemma no_records_no_document_witness :
  @main silent_engine docs_only_fs
  = {| printed := [LoadingLanguages; CppLoaded; AnalyzingRepo; NoValidFiles];
       output_file := NotOpened; uncaught := None |}.
Proof.
  destruct (@no_records_no_document silent_engine docs_only_fs)
    as (_ & _ & Hnone & _).
  apply (Hnone tt tt); reflexivity.
Defined.

(** C9 as stated fails where the run returns before the loops: with no
    source directory, or with no language, no file produces a record
    and the run does not print that no valid source files were found. *)
Lemma early_return_prints_another_line :
  @index_of silent_engine missing_src_fs tt tt = []
  ∧ @main silent_engine missing_src_fs
    = {| printed := [LoadingLanguages; CppLoaded; SrcDirNotFound];
         output_file := NotOpened; uncaught := None |}
  ∧ (NoValidFiles ∉ printed (@main silent_engine missing_src_fs))
  ∧ @main no_language_engine docs_only_fs
    = {| printed := [LoadingLanguages;
                     LoadError (Exn (py "LookupError") (py "cpp"));
                     EnsureInstalled];
         output_file := NotOpened; uncaught := None |}
  ∧ (NoValidFiles ∉ printed (@main no_language_engine docs_only_fs)).
Proof.
  split_and!; [reflexivity|reflexivity| |reflexivity|];
    cbn; rewrite !elem_of_cons, elem_of_nil; intuition discriminate.
Qed.

(** C1, as the code has it. Two traversals of the same files (the same
    contents under the same paths) build mappings with the same keys and
    the same record under each key; the keys stand in the order of the
    traversal, so the documents are the same when the order is. The
    document is ASCII text, so that equal texts are equal bytes. *)
Theorem index_agrees_across_traversal_orders `{ts : TreeSitter}
    (fs1 fs2 : FileSystem) (cpp_lang_obj : language) (cpp_parser : parser) :
  (∀ p, read_bytes fs1 p = read_bytes fs2 p) →
  visited (os_walk fs1 SRC_DIR) ≡ₚ visited (os_walk fs2 SRC_DIR) →
  let index1 := index_of fs1 cpp_lang_obj cpp_parser in
  let index2 := index_of fs2 cpp_lang_obj cpp_parser in
  (∀ q, Dict.get q index1 = Dict.get q index2)
  ∧ Dict.keys index1 ≡ₚ Dict.keys index2
  ∧ (NoDup (visited_paths (os_walk fs1 SRC_DIR)) →
     Dict.keys index1
     = filter (λ q, extension_of q ∈ VALID_CPP_EXTENSIONS)
         (visited_paths (os_walk fs1 SRC_DIR)))
  ∧ (os_walk fs1 SRC_DIR = os_walk fs2 SRC_DIR →
     Json.dumps index1 = Json.dumps index2)
  ∧ Forall (λ c, c < 128) (Json.dumps index1).
Proof.
  intros Hread Hperm index1 index2.
  assert (∀ q, Dict.get q index1 = Dict.get q index2) as Hget.
  { intros q. unfold index1, index2. rewrite !index_lookup.
    unfold record_of. rewrite (analyze_file_ext fs1 fs2) by done.
    erewrite bool_decide_ext; [done|].
    unfold visited_paths. by rewrite Hperm. }
  split_and!; [done| | | |apply JsonFacts.dumps_ascii].
  - apply NoDup_Permutation; [apply index_NoDup..|].
    intros q. by rewrite !DictFacts.elem_of_keys, Hget.
  - intros Hnd. by apply index_keys.
  - intros Hwalk. f_equal. unfold index1, index2, index_of, walked.
    rewrite !analyze_visited. cbn [lenient os_walk]. rewrite Hwalk. f_equal.
    by apply foldl_step_ext.
Qed.

Lemma index_agrees_across_traversal_orders_witness :
  Dict.keys (@index_of silent_engine (tree_fs walk_a_then_b two_headers) tt tt)
  ≡ₚ Dict.keys (@index_of silent_engine (tree_fs walk_b_then_a two_headers) tt tt).
Proof.
  apply (@index_agrees_across_traversal_orders silent_engine
           (tree_fs walk_a_then_b two_headers)
           (tree_fs walk_b_then_a two_headers) tt tt).
  - intros p. reflexivity.
  - apply perm_swap.
Defined.

(** C1 as stated fails: the two orders in which a walk may yield the two
    headers of one directory give two different documents. *)
Lemma traversal_order_changes_document :
  visited walk_a_then_b ≡ₚ visited walk_b_then_a
  ∧ Dict.keys (@index_of silent_engine (tree_fs walk_a_then_b two_headers) tt tt)
    = [py "./src/a.h"; py "./src/b.h"]
  ∧ Dict.keys (@index_of silent_engine (tree_fs walk_b_then_a two_headers) tt tt)
    = [py "./src/b.h"; py "./src/a.h"]
  ∧ written (@main silent_engine (tree_fs walk_a_then_b two_headers))
    ≠ written (@main silent_engine (tree_fs walk_b_then_a two_headers)).
Proof.
  split_and!.
  - apply perm_swap.
  - vm_compute. reflexivity.
  - vm_compute. reflexivity.
  - vm_compute. discriminate.
Qed.




(** C5, what the code does. A C++-like file whose content is empty or
    blank gets a record with the three category lists empty and no
    [error] key: the key set at line 143 is deleted at line 144 and the
    loop of line 145 runs over the three remaining keys. The parser is
    not called: nothing but the skip is printed, whatever the parser
    would do. *)
Theorem empty_file_record_has_no_error `{ts : TreeSitter}
    (fs : FileSystem) (cpp_lang_obj : language) (cpp_parser : parser)
    (root : pystr) (files : list pystr) (filename : pystr)
    (content_bytes : pybytes) :
  (root, files) ∈ os_walk fs SRC_DIR →
  filename ∈ files →
  extension_of filename ∈ VALID_CPP_EXTENSIONS →
  let file_path := OsPath.join root filename in
  read_bytes fs file_path = Ok content_bytes →
  PyBytes.strip content_bytes = [] →
  analyze_file fs (cpp_profile cpp_lang_obj cpp_parser) file_path
  = ([EmptyFileSkipped file_path],
     [(py "includes", VList []); (py "functions", VList []);
      (py "classes", VList [])])
  ∧ Dict.get file_path (index_of fs cpp_lang_obj cpp_parser)
    = Some [(py "includes", VList []); (py "functions", VList []);
            (py "classes", VList [])]
  ∧ Dict.get (py "error")
      (record_of fs cpp_lang_obj cpp_parser file_path) = None.
Proof.
  intros Hwalk Hfile Hext file_path Hread Hblank.
  pose proof (analyze_file_blank cpp_lang_obj cpp_parser fs file_path
                content_bytes Hread Hblank) as Hrec.
  split_and!; [done| |].
  - rewrite index_lookup, bool_decide_eq_true_2.
    + unfold record_of. by rewrite Hrec.
    + split; [by eapply elem_of_visited_paths|].
      unfold file_path. by rewrite PathFacts.extension_join.
  - unfold record_of. by rewrite Hrec.
Qed.

Lemma empty_file_record_has_no_error_witness :
  printed (@main failing_parser_engine
             (tree_fs [(py "./src", [py "a.h"])] [(py "./src/a.h", Ok [])]))
  = [LoadingLanguages; CppLoaded; AnalyzingRepo; AnalyzingCpp (py "./src/a.h");
     EmptyFileSkipped (py "./src/a.h"); Saved; AnalyzedCount 1]
  ∧ Dict.get (py "error")
      (@record_of failing_parser_engine
         (tree_fs [(py "./src", [py "a.h"])] [(py "./src/a.h", Ok [])])
         tt tt (py "./src/a.h")) = None.
Proof.
  split; [vm_compute; reflexivity|].
  apply (@empty_file_record_has_no_error failing_parser_engine
           (tree_fs [(py "./src", [py "a.h"])] [(py "./src/a.h", Ok [])])
           tt tt (py "./src") [py "a.h"] (py "a.h") []).
  - by_compute.
  - by_compute.
  - by_compute.
  - reflexivity.
  - reflexivity.
Defined.

End claims.

(** * Further properties *)

(** ** Text extraction *)

Section extraction.

(** X1. The bounds of a span are clamped as a slice clamps them: a node
    whose span is empty or reversed, or starts at or past the end of the
    content, gives the empty text, and an end past the content counts as
    the end of the content; no such node makes the extraction raise. *)
Theorem get_node_text_clamps_bounds (node : Node) (content_bytes : pybytes) :
  ((end_byte node ≤ start_byte node)%nat → get_node_text node content_bytes = Ok [])
  ∧ ((length content_bytes ≤ start_byte node)%nat →
     get_node_text node content_bytes = Ok [])
  ∧ ((length content_bytes ≤ end_byte node)%nat →
     get_node_text node content_bytes
     = get_node_text {| start_byte := start_byte node;
                        end_byte := length content_bytes |} content_bytes).
Proof.
  unfold get_node_text, PyBytes.slice. cbn [start_byte end_byte].
  split_and!.
  - intros Hle. by replace (end_byte node - start_byte node)%nat with 0%nat by lia.
  - intros Hle. rewrite drop_ge by done. by rewrite take_nil.
  - intros Hle. f_equal.
    rewrite !take_ge; [done|rewrite length_drop; lia..].
Qed.

Lemma get_node_text_clamps_bounds_witness :
  get_node_text {| start_byte := 5; end_byte := 4 |} Fixtures.one_function = Ok []
  ∧ get_node_text {| start_byte := 9; end_byte := 12 |} Fixtures.one_function
    = Ok []
  ∧ get_node_text {| start_byte := 4; end_byte := 100 |} Fixtures.one_function
    = Ok (py "f(){}").
Proof.
  destruct (get_node_text_clamps_bounds {| start_byte := 5; end_byte := 4 |}
              Fixtures.one_function) as (Hrev & _ & _).
  destruct (get_node_text_clamps_bounds {| start_byte := 9; end_byte := 12 |}
              Fixtures.one_function) as (_ & Hpast & _).
  destruct (get_node_text_clamps_bounds {| start_byte := 4; end_byte := 100 |}
              Fixtures.one_function) as (_ & _ & Hend).
  split_and!.
  - apply Hrev. simpl. lia.
  - apply Hpast. vm_compute. lia.
  - rewrite Hend; [vm_compute; reflexivity|]. vm_compute. lia.
Defined.

(** X2. The extracted text has at most one character per byte of the
    span, and every character is a Unicode scalar value (below
    [0x110000] and not a surrogate). *)
Theorem get_node_text_size_and_range (node : Node) (content_bytes : pybytes) :
  ∃ text,
    get_node_text node content_bytes = Ok text
    ∧ (length text ≤ end_byte node - start_byte node)%nat
    ∧ (length text ≤ length content_bytes)%nat
    ∧ Forall is_scalar text.
Proof.
  eexists. split; [apply DecodeFacts.get_node_text_kept|].
  set (span := PyBytes.slice _ _ _).
  pose proof (ScanFacts.kept_chars_scan_length span) as Hlen.
  assert (length span ≤ end_byte node - start_byte node
          ∧ length span ≤ length content_bytes)%nat as [H1 H2].
  { unfold span, PyBytes.slice. rewrite length_take, length_drop. lia. }
  split_and!; [lia|lia|apply ScanFacts.kept_chars_scan_scalar].
Qed.

(** X3. On a span that is valid UTF-8 the extraction loses nothing:
    encoding the extracted text gives the bytes of the span back, so two
    valid spans with the same text are the same bytes. *)
Theorem get_node_text_lossless_on_valid_span (node : Node)
    (content_bytes : pybytes) (text : pystr) :
  PyBytes.decode_utf8 PyBytes.Strict
    (PyBytes.slice (start_byte node) (end_byte node) content_bytes) = Ok text →
  get_node_text node content_bytes = Ok text
  ∧ utf8_encode text
    = PyBytes.slice (start_byte node) (end_byte node) content_bytes.
Proof.
  intros Hstrict. split.
  - rewrite DecodeFacts.get_node_text_kept. f_equal.
    by apply DecodeFacts.handle_strict_ok.
  - by apply ScanFacts.strict_decode_encode.
Qed.

Lemma get_node_text_lossless_on_valid_span_witness :
  get_node_text {| start_byte := 0; end_byte := 5 |} [xc3; xa9; xe2; x82; xac]
  = Ok [233; 8364]
  ∧ utf8_encode [233; 8364] = [xc3; xa9; xe2; x82; xac].
Proof.
  apply (get_node_text_lossless_on_valid_span
           {| start_byte := 0; end_byte := 5 |} [xc3; xa9; xe2; x82; xac]).
  vm_compute. reflexivity.
Defined.

End extraction.

(** ** The extractor, for any query definitions *)

Section extractor_general.
Context {ts : TreeSitter}.

Lemma get_elem_of {V} k (v : V) (d : Dict.t V) :
  NoDup (Dict.keys d) → (k, v) ∈ d → Dict.get k d = Some v.
Proof.
  unfold Dict.keys. induction d as [|[k' v'] d IH]; [by intros _ ?%elem_of_nil|].
  rewrite fmap_cons. cbn [fst Dict.get].
  intros [Hnotin Hnd]%NoDup_cons [Heq|Hin]%elem_of_cons.
  - injection Heq as -> ->. by rewrite bool_decide_eq_true_2.
  - rewrite bool_decide_eq_false_2; [by apply IH|].
    intros ->. apply Hnotin. apply list_elem_of_fmap. by exists (k, v).
Qed.

Lemma keys_fmap_value {V W} (g : pystr * V → W) (d : Dict.t V) :
  Dict.keys ((λ kv, (kv.1, g kv)) <$> d) = Dict.keys d.
Proof.
  unfold Dict.keys. rewrite <-list_fmap_compose. by apply list_fmap_ext.
Qed.

Lemma category_step_data lang_obj t content_bytes log fd data_key info :
  (category_step lang_obj t content_bytes (log, fd) (data_key, info)).2
  = Dict.set data_key (run_category lang_obj t content_bytes data_key info).1 fd.
Proof.
  unfold category_step.
  by destruct (run_category _ _ _ _ _) as [texts [e|]].
Qed.

Lemma foldl_category_data lang_obj t content_bytes defs acc :
  NoDup (Dict.keys acc.2 ++ Dict.keys defs) →
  (foldl (category_step lang_obj t content_bytes) acc defs).2
  = acc.2 ++ ((λ kv, (kv.1, (run_category lang_obj t content_bytes kv.1 kv.2).1))
                <$> defs).
Proof.
  revert acc. induction defs as [|[data_key info] defs IH]; intros [log fd] Hnd.
  - cbn [foldl fmap list_fmap snd]. by rewrite app_nil_r.
  - cbn [foldl]. rewrite IH.
    + rewrite category_step_data. cbn [snd fst fmap list_fmap].
      rewrite set_fresh, <-app_assoc; [done|].
      apply NoDup_app in Hnd as (_ & Hnd & _). intros Hin.
      apply (Hnd _ Hin). unfold Dict.keys. rewrite fmap_cons. by left.
    + rewrite category_step_data. cbn [snd] in *.
      assert (data_key ∉ Dict.keys fd) as Hfresh.
      { apply NoDup_app in Hnd as (_ & Hnd & _). intros Hin.
        apply (Hnd _ Hin). unfold Dict.keys. rewrite fmap_cons. by left. }
      rewrite set_fresh by done. unfold Dict.keys in *.
      rewrite fmap_app, fmap_cons in *. cbn [fst fmap list_fmap] in *.
      by rewrite <-app_assoc.
Qed.

(** The record [parse_file_data] returns when the parser gives a tree:
    one normalized list per category. *)
Lemma parse_file_data_record p content_bytes defs lang_obj t :
  NoDup (Dict.keys defs) →
  parser_parse p content_bytes = Ok t →
  (parse_file_data p content_bytes defs lang_obj).2
  = Ok ((λ kv, (kv.1, VList (normalize
                  (run_category lang_obj t content_bytes kv.1 kv.2).1)))
          <$> defs).
Proof.
  intros Hnd Hparse. unfold parse_file_data. rewrite Hparse.
  pose proof (foldl_category_data lang_obj t content_bytes defs ([], []) Hnd)
    as Hdata.
  destruct (foldl _ _ _) as [log file_data]. cbn [snd] in *. subst file_data.
  rewrite app_nil_l. unfold Dict.map_values. rewrite <-list_fmap_compose.
  done.
Qed.

Lemma elem_of_captured_texts data_key content_bytes captures_dict names x :
  x ∈ captured_texts data_key content_bytes captures_dict names
  ↔ ∃ name nodes node,
      name ∈ names ∧ Dict.get name captures_dict = Some nodes
      ∧ node ∈ nodes ∧ x = added_text data_key content_bytes node.
Proof.
  unfold captured_texts. rewrite list_elem_of_bind. split.
  - intros (name & Hx & Hname).
    destruct (Dict.get name captures_dict) as [nodes|] eqn:Hget;
      [|by apply elem_of_nil in Hx].
    apply list_elem_of_fmap in Hx as (node & -> & Hnode).
    by exists name, nodes, node.
  - intros (name & nodes & node & Hname & Hget & Hnode & ->).
    exists name. split; [|done]. rewrite Hget.
    apply list_elem_of_fmap. by exists node.
Qed.

(** X4. Whatever the query definitions (a dict: distinct keys) and the
    engine, a record that [parse_file_data] returns has exactly the keys
    of the definitions, in their order, and under each key a list of
    strings that is sorted in ascending order and free of duplicates. *)
Theorem parse_file_data_record_invariant (p : parser)
    (content_bytes : pybytes) (defs : Dict.t query_info)
    (lang_obj : option language) (record : entry) :
  NoDup (Dict.keys defs) →
  (parse_file_data p content_bytes defs lang_obj).2 = Ok record →
  Dict.keys record = Dict.keys defs
  ∧ ∀ k v, (k, v) ∈ record →
           ∃ l, v = VList l ∧ Sorted PyStr.le l ∧ NoDup l.
Proof.
  intros Hnd Hrec.
  destruct (parser_parse p content_bytes) as [t|e] eqn:Hparse.
  - rewrite (parse_file_data_record _ _ _ _ t Hnd Hparse) in Hrec.
    injection Hrec as <-. split.
    + apply keys_fmap_value.
    + intros k v ([k' info] & [= -> ->] & _)%list_elem_of_fmap.
      eexists. split_and!; [done|apply Sorted_normalize|apply NoDup_normalize].
  - unfold parse_file_data in Hrec. by rewrite Hparse in Hrec.
Qed.

(** X5. A string is in a category's list exactly when it is the text
    added for a node that the category's query captured under one of the
    capture names of the category: captures under other names are left
    out, and a capture name the query did not produce is passed over. *)
Theorem category_list_members (p : parser) (content_bytes : pybytes)
    (defs : Dict.t query_info) (lang : language) (t : tree)
    (data_key : pystr) (info : query_info) (q : query)
    (captures_dict : Dict.t (list Node)) :
  NoDup (Dict.keys defs) →
  (data_key, info) ∈ defs →
  query_string info ≠ [] → capture_names info ≠ [] →
  parser_parse p content_bytes = Ok t →
  language_query lang (query_string info) = Ok q →
  query_captures q t = Ok captures_dict →
  ∃ record l,
    (parse_file_data p content_bytes defs (Some lang)).2 = Ok record
    ∧ Dict.get data_key record = Some (VList l)
    ∧ ∀ x, x ∈ l
           ↔ ∃ name nodes node,
               name ∈ capture_names info
               ∧ Dict.get name captures_dict = Some nodes
               ∧ node ∈ nodes
               ∧ x = added_text data_key content_bytes node.
Proof.
  intros Hnd Hin Hqs Hnames Hparse Hquery Hcaptures.
  eexists _, _. split_and!.
  - by apply parse_file_data_record.
  - apply get_elem_of.
    + by rewrite keys_fmap_value.
    + apply list_elem_of_fmap. by exists (data_key, info).
  - intros x. cbn [fst snd].
    rewrite elem_of_normalize, run_category_spec by done.
    rewrite Hquery, Hcaptures. cbn [fst].
    apply elem_of_captured_texts.
Qed.

(** X6. The order in which the engine lists the captured nodes, and how
    often it lists a node, do not show in a category's list: two capture
    dictionaries that hold the same nodes under each capture name of the
    category give the same normalized list. *)
Theorem capture_order_is_irrelevant (data_key : pystr)
    (content_bytes : pybytes) (d1 d2 : Dict.t (list Node))
    (names : list pystr) :
  (∀ name node,
     name ∈ names →
     node ∈ default [] (Dict.get name d1)
     ↔ node ∈ default [] (Dict.get name d2)) →
  normalize (add_captures data_key content_bytes d1 names []).1
  = normalize (add_captures data_key content_bytes d2 names []).1.
Proof.
  intros Hsame. rewrite !add_captures_spec. cbn [fst]. rewrite !app_nil_l.
  apply normalize_same_members. intros x.
  rewrite !elem_of_captured_texts.
  assert (∀ da db,
            (∀ name node, name ∈ names →
               node ∈ default [] (Dict.get name da)
               → node ∈ default [] (Dict.get name db)) →
            (∃ name nodes node,
               name ∈ names ∧ Dict.get name da = Some nodes
               ∧ node ∈ nodes ∧ x = added_text data_key content_bytes node) →
            ∃ name nodes node,
              name ∈ names ∧ Dict.get name db = Some nodes
              ∧ node ∈ nodes ∧ x = added_text data_key content_bytes node)
    as Hdir.
  { intros da db Hab (name & nodes & node & Hname & Hget & Hnode & ->).
    specialize (Hab name node Hname). rewrite Hget in Hab. cbn in Hab.
    specialize (Hab Hnode).
    destruct (Dict.get name db) as [nodes'|] eqn:Hget';
      [|by apply elem_of_nil in Hab].
    by exists name, nodes', node. }
  split; apply Hdir; intros name node Hname; by apply Hsame.
Qed.

(** X7. The only exception [parse_file_data] lets through is the
    parser's, and then it has printed nothing; otherwise it prints one
    line per category whose query raised, and nothing else. *)
Theorem parse_file_data_raises_only_from_parser (p : parser)
    (content_bytes : pybytes) (defs : Dict.t query_info)
    (lang_obj : option language) :
  let result := parse_file_data p content_bytes defs lang_obj in
  (∀ e, result.2 = Raise e ↔ parser_parse p content_bytes = Raise e)
  ∧ (is_ok (parser_parse p content_bytes) = false → result.1 = [])
  ∧ Forall (λ ev, ∃ data_key names e, ev = QueryError data_key names e) result.1
  ∧ (length result.1 ≤ length defs)%nat.
Proof.
  intros result. unfold result, parse_file_data.
  destruct (parser_parse p content_bytes) as [t|e] eqn:Hparse.
  - assert (∀ acc,
              let r := foldl (category_step lang_obj t content_bytes) acc defs in
              (Forall (λ ev, ∃ data_key names e, ev = QueryError data_key names e)
                 acc.1 →
               Forall (λ ev, ∃ data_key names e, ev = QueryError data_key names e)
                 r.1)
              ∧ (length r.1 ≤ length acc.1 + length defs)%nat) as Hlog.
    { clear. induction defs as [|[data_key info] defs IH]; intros acc r.
      - subst r. cbn [foldl length]. split; [done|lia].
      - subst r. cbn [foldl]. destruct (IH (category_step lang_obj t
                 content_bytes acc (data_key, info))) as [Hall Hlen].
        unfold category_step in *.
        destruct (run_category _ _ _ _ _) as [texts [e|]]; cbn [fst] in *.
        + split.
          * intros Hacc. apply Hall, Forall_app. split; [done|].
            repeat constructor. by eexists _, _, _.
          * rewrite length_app in Hlen. cbn [length] in *. lia.
        + split; [done|]. cbn [length]. lia. }
    destruct (Hlog ([], [])) as [Hall Hlen].
    destruct (foldl _ _ _) as [log file_data]. cbn [fst snd length] in *.
    split_and!; [by split|done|by apply Hall|lia].
  - cbn [fst snd length]. split_and!; [split; congruence|done|done|lia].
Qed.

End extractor_general.

Lemma category_list_members_witness :
  ∃ record l,
    (@parse_file_data Fixtures.include_engine tt Fixtures.two_includes
       cpp_query_definitions (Some tt)).2 = Ok record
    ∧ Dict.get (py "includes") record = Some (VList l)
    ∧ ∀ x, x ∈ l
           ↔ ∃ name nodes node,
               name ∈ [py "include_path"]
               ∧ Dict.get name
                   [(py "include_path",
                     [{| start_byte := 9; end_byte := 20 |};
                      {| start_byte := 30; end_byte := 41 |}])]
                 = Some nodes
               ∧ node ∈ nodes
               ∧ x = added_text (py "includes") Fixtures.two_includes node.
Proof.
  apply (@category_list_members Fixtures.include_engine tt
           Fixtures.two_includes cpp_query_definitions tt
           Fixtures.two_includes (py "includes")
           {| query_string := CPP_INCLUDE_QUERY_STR;
              capture_names := [py "include_path"] |}
           CPP_INCLUDE_QUERY_STR).
  - by_compute.
  - unfold cpp_query_definitions. by left.
  - by_compute.
  - by_compute.
  - reflexivity.
  - reflexivity.
  - vm_compute. reflexivity.
Defined.

Lemma parse_file_data_record_invariant_witness :
  Dict.keys [(py "includes", VList [py "foo/bar.h"]);
             (py "functions", VList []); (py "classes", VList [])]
  = Dict.keys cpp_query_definitions
  ∧ ∀ k v, (k, v) ∈ [(py "includes", VList [py "foo/bar.h"]);
                     (py "functions", VList []); (py "classes", VList [])] →
           ∃ l, v = VList l ∧ Sorted PyStr.le l ∧ NoDup l.
Proof.
  apply (@parse_file_data_record_invariant Fixtures.include_engine tt
           Fixtures.two_includes cpp_query_definitions (Some tt)).
  - by_compute.
  - vm_compute. reflexivity.
Defined.

Lemma capture_order_is_irrelevant_witness :
  normalize
    (add_captures (py "includes") Fixtures.two_includes
       [(py "include_path",
         [{| start_byte := 9; end_byte := 20 |};
          {| start_byte := 30; end_byte := 41 |}])]
       [py "include_path"] []).1
  = normalize
      (add_captures (py "includes") Fixtures.two_includes
         [(py "include_path",
           [{| start_byte := 30; end_byte := 41 |};
            {| start_byte := 9; end_byte := 20 |};
            {| start_byte := 30; end_byte := 41 |}])]
         [py "include_path"] []).1.
Proof.
  apply capture_order_is_irrelevant.
  intros name node ->%list_elem_of_singleton.
  cbn [Dict.get]. rewrite !bool_decide_eq_true_2 by done.
  cbn [default from_option]. unfold id.
  rewrite !elem_of_cons, !elem_of_nil. tauto.
Defined.


(** ** The mapping a run builds *)

Module SplitextFacts.
Import PyStr OsPath.
Local Open Scope Z_scope.

(** [root + ext == p], as the documentation of [splitext] has it. *)
Lemma splitext_parts p : (splitext p).1 ++ (splitext p).2 = p.
Proof.
  unfold splitext. destruct (_ <? _); [|by rewrite app_nil_r].
  destruct (forallb _ _); cbn [fst snd]; [by rewrite app_nil_r|].
  apply take_drop.
Qed.

Lemma rfind_replicate c k : rfind c (replicate k c) = Z.of_nat k - 1.
Proof.
  induction k as [|k IH]; [done|].
  rewrite replicate_S_end, PathFacts.rfind_app.
  rewrite bool_decide_eq_true_2 by (by apply list_elem_of_singleton).
  rewrite length_replicate. change (rfind c [c]) with (if (c =? c)%N then 0 else -1).
  rewrite N.eqb_refl. lia.
Qed.

Lemma forallb_replicate (c : N) k :
  forallb (λ x, (x =? c)%N) (replicate k c) = true.
Proof. induction k as [|k IH]; [done|]. simpl. by rewrite N.eqb_refl, IH. Qed.

(** A name without separator whose dots all lead it has no extension. *)
Lemma splitext_leading_dots k rest :
  extsep ∉ rest → sep ∉ rest →
  (splitext (replicate k extsep ++ rest)).2 = [].
Proof.
  intros Hdot Hsep. unfold splitext.
  assert (sep ∉ replicate k extsep ++ rest) as Hsep'.
  { rewrite elem_of_app. intros [Hin|Hin]; [|done].
    by apply elem_of_replicate_inv in Hin. }
  rewrite (PathFacts.rfind_absent sep) by done.
  rewrite PathFacts.rfind_app, bool_decide_eq_false_2 by done.
  rewrite rfind_replicate.
  destruct (Z.ltb_spec (-1) (Z.of_nat k - 1)) as [Hk|Hk]; [|done].
  replace (PyBytes.slice (Z.to_nat (-1 + 1)) (Z.to_nat (Z.of_nat k - 1))
             (replicate k extsep ++ rest))
    with (replicate (k - 1) extsep).
  - by rewrite forallb_replicate.
  - unfold PyBytes.slice. change (Z.to_nat (-1 + 1)) with 0%nat.
    rewrite drop_0, Nat.sub_0_r, take_app_le by (rewrite length_replicate; lia).
    rewrite take_replicate. f_equal. lia.
Qed.

End SplitextFacts.

Section index_general.
Context {ts : TreeSitter}.
Context (cpp_lang_obj : language) (cpp_parser : parser).

Local Abbreviation step fs :=
  (λ st rf, process_file fs cpp_lang_obj cpp_parser rf.1 st rf.2).
Local Abbreviation recognized p := (extension_of p ∈ VALID_CPP_EXTENSIONS).

Lemma elem_of_visited_paths_inv walk q :
  q ∈ visited_paths walk →
  ∃ root files filename,
    (root, files) ∈ walk ∧ filename ∈ files ∧ q = OsPath.join root filename.
Proof.
  unfold visited_paths, visited.
  intros ([root filename] & -> & Hin)%list_elem_of_fmap.
  apply list_elem_of_bind in Hin as ([root' files] & Hin & Hwalk).
  apply list_elem_of_fmap in Hin as (filename' & [= -> ->] & Hfile).
  by exists root', files, filename'.
Qed.

Lemma record_of_ext_at fs1 fs2 q :
  read_bytes fs1 q = read_bytes fs2 q →
  record_of fs1 cpp_lang_obj cpp_parser q
  = record_of fs2 cpp_lang_obj cpp_parser q.
Proof.
  intros Hread. unfold record_of, analyze_file, try_analyze. by rewrite Hread.
Qed.

Lemma length_set_le {V} k (v : V) d :
  (length (Dict.set k v d) ≤ S (length d))%nat.
Proof.
  induction d as [|[k' v'] d IH]; [done|]. cbn [Dict.set].
  case_bool_decide; cbn [length]; lia.
Qed.

Lemma length_repo_foldl fs st l :
  (length (repo_structure (foldl (step fs) st l)) + file_count st
   ≤ length (repo_structure st) + file_count (foldl (step fs) st l))%nat.
Proof.
  revert st. induction l as [|[root f] l IH]; intros st; [done|].
  cbn [foldl]. specialize (IH (process_file fs cpp_lang_obj cpp_parser root st f)).
  cbn [fst snd] in *. revert IH. unfold process_file.
  destruct (raised st); [done|].
  destruct (select_profile _ _ _) as [pr|]; [|done].
  destruct (stdout_error fs _); [done|].
  destruct (analyze_file _ _ _) as [log record].
  cbn [repo_structure file_count].
  pose proof (length_set_le (OsPath.join root f) record (repo_structure st)).
  lia.
Qed.

Lemma length_filter_paths (l : list (pystr * pystr)) :
  length (filter (λ q, recognized q) ((λ rf, OsPath.join rf.1 rf.2) <$> l))
  = length (filter (λ rf, recognized rf.2) l).
Proof.
  induction l as [|[root f] l IH]; [done|]. rewrite fmap_cons. cbn [fst snd].
  destruct (decide (recognized f)) as [Hf|Hf].
  - rewrite !filter_cons_True; [|done|by rewrite PathFacts.extension_join].
    cbn [length]. by rewrite IH.
  - rewrite !filter_cons_False; [done|done|by rewrite PathFacts.extension_join].
Qed.

Lemma keys_foldl_same fs1 fs2 st1 st2 l :
  (∀ q, stdout_error fs1 q = None) → (∀ q, stdout_error fs2 q = None) →
  raised st1 = None → raised st2 = None →
  Dict.keys (repo_structure st1) = Dict.keys (repo_structure st2) →
  Dict.keys (repo_structure (foldl (step fs1) st1 l))
  = Dict.keys (repo_structure (foldl (step fs2) st2 l)).
Proof.
  intros Hprint1 Hprint2. revert st1 st2.
  induction l as [|[root f] l IH]; intros st1 st2 H1 H2 Hkeys; [done|].
  cbn [foldl]. cbn [fst snd].
  destruct (decide (recognized f)) as [Hf|Hf].
  - destruct (process_file_record fs1 cpp_lang_obj cpp_parser root st1 f
                H1 Hf (Hprint1 _)) as (Hrepo1 & _ & _ & Hnone1).
    destruct (process_file_record fs2 cpp_lang_obj cpp_parser root st2 f
                H2 Hf (Hprint2 _)) as (Hrepo2 & _ & _ & Hnone2).
    apply IH; [done..|]. rewrite Hrepo1, Hrepo2.
    by rewrite !DictFacts.keys_set, Hkeys.
  - rewrite !process_file_skip by done. by apply IH.
Qed.

(** X8. Every record of the mapping has one of two shapes: the three
    category lists, each sorted and free of duplicates, and no [error]
    key; or the three lists empty and, under [error], the text of the
    exception that reading the file or parsing it raised. So [error] is
    never [None] in the mapping, and never stands beside a list that is
    not empty. *)
Theorem index_records_have_two_shapes (fs : FileSystem) (q : pystr)
    (record : entry) :
  Dict.get q (index_of fs cpp_lang_obj cpp_parser) = Some record →
  (Dict.keys record = [py "includes"; py "functions"; py "classes"]
   ∧ ∀ k v, (k, v) ∈ record →
            ∃ l, v = VList l ∧ Sorted PyStr.le l ∧ NoDup l)
  ∨ (∃ e,
       record = [(py "includes", VList []); (py "functions", VList []);
                 (py "classes", VList []); (py "error", VStr (exn_str e))]
       ∧ (read_bytes fs q = Raise e
          ∨ ∃ content_bytes,
              read_bytes fs q = Ok content_bytes
              ∧ PyBytes.strip content_bytes ≠ []
              ∧ parser_parse cpp_parser content_bytes = Raise e)).
Proof.
  rewrite index_lookup. case_bool_decide; [|done]. intros [= <-].
  assert (∀ l1 l2 l3 : list pystr,
            (∀ l, l ∈ [l1; l2; l3] → Sorted PyStr.le l ∧ NoDup l) →
            Dict.keys [(py "includes", VList l1); (py "functions", VList l2);
                       (py "classes", VList l3)]
            = [py "includes"; py "functions"; py "classes"]
            ∧ ∀ k v, (k, v) ∈ [(py "includes", VList l1);
                               (py "functions", VList l2);
                               (py "classes", VList l3)] →
                     ∃ l, v = VList l ∧ Sorted PyStr.le l ∧ NoDup l) as Hleft.
  { intros l1 l2 l3 Hl. split; [done|]. intros k v Hkv.
    rewrite !elem_of_cons, elem_of_nil in Hkv.
    destruct Hkv as [[= -> ->]|[[= -> ->]|[[= -> ->]|[]]]];
      eexists; (split; [done|]); apply Hl;
      rewrite !elem_of_cons; auto. }
  destruct (read_bytes fs q) as [content_bytes|e] eqn:Hread.
  - destruct (decide (PyBytes.strip content_bytes = [])) as [Hblank|Hblank].
    + left. unfold record_of.
      rewrite (analyze_file_blank _ _ _ _ content_bytes Hread Hblank).
      cbn [snd]. apply Hleft. intros l Hl.
      rewrite !elem_of_cons, elem_of_nil in Hl.
      destruct Hl as [->|[->|[->|[]]]]; split; constructor.
    + destruct (parser_parse cpp_parser content_bytes) as [t|e] eqn:Hparse.
      * left. rewrite (record_of_parsed _ _ _ _ content_bytes t) by done.
        apply Hleft. intros l Hl.
        rewrite !elem_of_cons, elem_of_nil in Hl.
        destruct Hl as [->|[->|[->|[]]]];
          (split; [apply Sorted_normalize|apply NoDup_normalize]).
      * right. exists e. unfold record_of.
        rewrite (record_of_failure _ _ fs q e) by (right; eauto).
        split; [done|]. right. eauto.
  - right. exists e. unfold record_of.
    rewrite (record_of_failure _ _ fs q e) by (by left).
    split; [done|by left].
Qed.

(** X10. Every key of the mapping is the path of a file the walk
    yielded, joined from its directory and its name, and ends with
    [.h], [.cpp] or [.i]. *)
Theorem index_keys_are_visited_cpp_paths (fs : FileSystem) (q : pystr) :
  q ∈ Dict.keys (index_of fs cpp_lang_obj cpp_parser) →
  ∃ root files filename stem ext,
    (root, files) ∈ os_walk fs SRC_DIR
    ∧ filename ∈ files
    ∧ q = OsPath.join root filename
    ∧ (ext = py ".h" ∨ ext = py ".cpp" ∨ ext = py ".i")
    ∧ q = stem ++ ext.
Proof.
  intros Hq. apply DictFacts.elem_of_keys in Hq as [record Hq].
  rewrite index_lookup in Hq. case_bool_decide as Hcond; [|done].
  destruct Hcond as [Hvisited Hext].
  apply elem_of_visited_paths_inv in Hvisited
    as (root & files & filename & Hwalk & Hfile & ->).
  exists root, files, filename, (OsPath.splitext (OsPath.join root filename)).1,
    (extension_of (OsPath.join root filename)).
  split_and!; [done..| |by rewrite SplitextFacts.splitext_parts].
  unfold VALID_CPP_EXTENSIONS in Hext.
  rewrite !elem_of_union, !elem_of_singleton in Hext. tauto.
Qed.

(** X11. A file whose name has no dot, or whose dots all stand at its
    start (a hidden file such as [.h] or [.clang-format]), has no
    extension for the indexer and gets no record. *)
Theorem dot_leading_names_are_skipped (fs : FileSystem)
    (root : pystr) (k : nat) (rest : pystr) :
  OsPath.extsep ∉ rest → OsPath.sep ∉ rest →
  let filename := replicate k OsPath.extsep ++ rest in
  extension_of filename = []
  ∧ (OsPath.join root filename
     ∉ Dict.keys (index_of fs cpp_lang_obj cpp_parser)).
Proof.
  intros Hdot Hsep filename.
  assert (extension_of filename = []) as Hext
    by (by apply SplitextFacts.splitext_leading_dots).
  split; [done|]. apply DictFacts.not_elem_of_keys.
  rewrite index_lookup, bool_decide_eq_false_2; [done|].
  intros [_ Hrec]. rewrite PathFacts.extension_join, Hext in Hrec.
  revert Hrec. by_compute.
Qed.

(** X12. A record depends on the bytes of its own file only: two file
    systems with the same walk whose files read the same except for one
    path give mappings with the same keys in the same order and the same
    record under every other key. *)
Theorem records_are_independent (fs1 fs2 : FileSystem) (changed : pystr) :
  os_walk fs1 SRC_DIR = os_walk fs2 SRC_DIR →
  (∀ q, q ≠ changed → read_bytes fs1 q = read_bytes fs2 q) →
  Dict.keys (index_of fs1 cpp_lang_obj cpp_parser)
  = Dict.keys (index_of fs2 cpp_lang_obj cpp_parser)
  ∧ ∀ q, q ≠ changed →
         Dict.get q (index_of fs1 cpp_lang_obj cpp_parser)
         = Dict.get q (index_of fs2 cpp_lang_obj cpp_parser).
Proof.
  intros Hwalk Hread. split.
  - unfold index_of, walked. rewrite !analyze_visited.
    cbn [lenient os_walk]. rewrite Hwalk.
    by apply keys_foldl_same.
  - intros q Hq. rewrite !index_lookup, Hwalk.
    by rewrite (record_of_ext_at fs1 fs2 q) by (by apply Hread).
Qed.

End index_general.

(** X9. The count a run reports: when [main] prints that it analyzed
    [n] files, [n] is the number of files the walk yielded with a
    C++-like extension, the line is the last one printed, and the
    document written is that of a mapping with at most [n] records,
    and with exactly [n] when the walk yielded no path twice. The line
    is printed whenever the document is written. *)
Theorem file_count_counts_recognized_files `{ts : TreeSitter}
    (fs : FileSystem) :
  (∀ n,
     AnalyzedCount n ∈ printed (main fs) →
     n = length (filter (λ rf, extension_of rf.2 ∈ VALID_CPP_EXTENSIONS)
                   (visited (os_walk fs SRC_DIR)))
     ∧ ∃ lang p,
         load_languages = Ok (lang, p)
         ∧ printed (main fs)
           = stdout (walked fs lang p) ++ [Saved; AnalyzedCount n]
         ∧ output_file (main fs) = Written (Json.dumps (index_of fs lang p))
         ∧ (length (index_of fs lang p) ≤ n)%nat
         ∧ (NoDup (visited_paths (os_walk fs SRC_DIR)) →
            length (index_of fs lang p) = n))
  ∧ (∀ document,
       output_file (main fs) = Written document →
       ∃ n, AnalyzedCount n ∈ printed (main fs)).
Proof.
  assert (∀ lang p ev,
            is_loop_event ev = false →
            ev ∉ [LoadingLanguages; CppLoaded; AnalyzingRepo] →
            ev ∈ stdout (walked fs lang p) → False) as Hloops.
  { intros lang p ev Hev Hinit Hin.
    by apply (walked_not_printed lang p fs ev Hev Hinit). }
  assert (∀ n, AnalyzedCount n ∉ [LoadingLanguages; CppLoaded; AnalyzingRepo])
    as Hinit.
  { intros n. rewrite !not_elem_of_cons. split_and!; [done..|].
    apply not_elem_of_nil. }
  split.
  - intros n Hn.
    destruct load_languages as [[lang p]|e] eqn:Hload.
    2:{ unfold main in Hn. rewrite Hload in Hn. cbn [printed] in Hn.
        rewrite !elem_of_cons, elem_of_nil in Hn.
        by destruct Hn as [?|[?|[?|[]]]]. }
    destruct (path_exists fs SRC_DIR) eqn:Hsrc.
    2:{ unfold main in Hn. rewrite Hload, Hsrc in Hn. cbn [negb printed] in Hn.
        rewrite !elem_of_cons, elem_of_nil in Hn.
        by destruct Hn as [?|[?|[?|[]]]]. }
    pose proof (main_loaded_at lang p fs Hload Hsrc) as Hmain.
    cbv zeta in Hmain.
    destruct (raised (walked fs lang p)) as [e|] eqn:Hraised.
    { rewrite Hmain in Hn. cbn [printed] in Hn.
      by apply Hloops in Hn. }
    pose proof (walked_index fs lang p Hraised) as Hindex.
    pose proof (walked_file_count fs lang p Hraised) as Hcount.
    destruct (repo_structure (walked fs lang p)) as [|kv repo] eqn:Hrepo.
    { rewrite Hmain in Hn. cbn [printed] in Hn.
      apply elem_of_app in Hn as [Hn|Hn]; [by apply Hloops in Hn|].
      rewrite !elem_of_cons, elem_of_nil in Hn. by destruct Hn as [?|[]]. }
    destruct (write_text fs OUTPUT_JSON (Json.dumps (kv :: repo)))
      as [e|] eqn:Hwrite.
    { rewrite Hmain in Hn. cbn [printed] in Hn.
      apply elem_of_app in Hn as [Hn|Hn]; [by apply Hloops in Hn|].
      rewrite !elem_of_cons, elem_of_nil in Hn. by destruct Hn as [?|[]]. }
    rewrite Hmain in Hn |- *. cbn [printed output_file] in *.
    apply elem_of_app in Hn as [Hn|Hn]; [by apply Hloops in Hn|].
    rewrite !elem_of_cons, elem_of_nil in Hn.
    destruct Hn as [?|[[= ->]|[]]]; [done|].
    split; [done|]. exists lang, p.
    split_and!; [done|done|by rewrite Hindex| |].
    + rewrite Hcount. unfold index_of, walked. rewrite analyze_visited.
      pose proof (length_repo_foldl lang p (lenient fs)
                    (initial_state [LoadingLanguages; CppLoaded; AnalyzingRepo])
                    (visited (os_walk fs SRC_DIR))) as Hlen.
      cbn [initial_state repo_structure file_count length] in Hlen.
      rewrite file_count_foldl in Hlen by done.
      cbn [initial_state file_count lenient os_walk] in *. lia.
    + intros Hnd. rewrite Hcount, <-length_filter_paths.
      rewrite <-(length_fmap fst (index_of fs lang p)).
      change (fst <$> ?d) with (Dict.keys d).
      by rewrite index_keys.
  - intros document Hdoc.
    destruct (main_opened fs) as (lang & p & Hload & Hsrc & Hraised & _);
      [by rewrite Hdoc|].
    pose proof (main_loaded_at lang p fs Hload Hsrc) as Hmain.
    cbv zeta in Hmain. rewrite Hraised in Hmain.
    destruct (repo_structure (walked fs lang p)) as [|kv repo];
      [by rewrite Hmain in Hdoc|].
    destruct (write_text _ _ _) as [e|]; [by rewrite Hmain in Hdoc|].
    exists (file_count (walked fs lang p)). rewrite Hmain. cbn [printed].
    apply elem_of_app. right. rewrite !elem_of_cons. auto.
Qed.

Lemma index_records_have_two_shapes_witness :
  let record := @record_of Fixtures.silent_engine Fixtures.unreadable_fs tt tt
                  (py "./src/a.h") in
  (Dict.keys record = [py "includes"; py "functions"; py "classes"]
   ∧ ∀ k v, (k, v) ∈ record →
            ∃ l, v = VList l ∧ Sorted PyStr.le l ∧ NoDup l)
  ∨ (∃ e,
       record = [(py "includes", VList []); (py "functions", VList []);
                 (py "classes", VList []); (py "error", VStr (exn_str e))]
       ∧ (read_bytes Fixtures.unreadable_fs (py "./src/a.h") = Raise e
          ∨ ∃ content_bytes,
              read_bytes Fixtures.unreadable_fs (py "./src/a.h")
              = Ok content_bytes
              ∧ PyBytes.strip content_bytes ≠ []
              ∧ @parser_parse Fixtures.silent_engine tt content_bytes
                = Raise e)).
Proof.
  apply (@index_records_have_two_shapes Fixtures.silent_engine tt tt
           Fixtures.unreadable_fs (py "./src/a.h")).
  vm_compute. reflexivity.
Defined.

Lemma index_keys_are_visited_cpp_paths_witness :
  ∃ root files filename stem ext,
    (root, files) ∈ os_walk Fixtures.mixed_fs SRC_DIR
    ∧ filename ∈ files
    ∧ py "./src/a.h" = OsPath.join root filename
    ∧ (ext = py ".h" ∨ ext = py ".cpp" ∨ ext = py ".i")
    ∧ py "./src/a.h" = stem ++ ext.
Proof.
  apply (@index_keys_are_visited_cpp_paths Fixtures.silent_engine tt tt
           Fixtures.mixed_fs (py "./src/a.h")).
  by_compute.
Defined.

Lemma dot_leading_names_are_skipped_witness :
  let fs := Fixtures.tree_fs [(py "./src", [py ".clang-format"; py "a.h"])]
              [(py "./src/.clang-format", Ok (Fixtures.bytes_of "---"));
               (py "./src/a.h", Ok [])] in
  extension_of (replicate 1 OsPath.extsep ++ py "clang-format") = []
  ∧ (OsPath.join (py "./src") (replicate 1 OsPath.extsep ++ py "clang-format")
     ∉ Dict.keys (@index_of Fixtures.silent_engine fs tt tt)).
Proof.
  intros fs.
  apply (@dot_leading_names_are_skipped Fixtures.silent_engine tt tt fs
           (py "./src") 1%nat (py "clang-format")); by_compute.
Defined.

Lemma records_are_independent_witness :
  let fs1 := Fixtures.tree_fs Fixtures.walk_a_then_b Fixtures.two_headers in
  let fs2 := Fixtures.tree_fs Fixtures.walk_a_then_b two_headers_one_changed in
  Dict.keys (@index_of Fixtures.silent_engine fs1 tt tt)
  = Dict.keys (@index_of Fixtures.silent_engine fs2 tt tt)
  ∧ ∀ q, q ≠ py "./src/a.h" →
         Dict.get q (@index_of Fixtures.silent_engine fs1 tt tt)
         = Dict.get q (@index_of Fixtures.silent_engine fs2 tt tt).
Proof.
  intros fs1 fs2.
  apply (@records_are_independent Fixtures.silent_engine tt tt fs1 fs2
           (py "./src/a.h")).
  - reflexivity.
  - intros q Hq. unfold fs1, fs2, Fixtures.tree_fs, Fixtures.two_headers,
      two_headers_one_changed. cbn [read_bytes Dict.get].
    rewrite (bool_decide_eq_false_2 (py "./src/a.h" = q)) by done.
    reflexivity.
Defined.

(** ** The keys of the index, as the later stages read them *)

Module KeyFacts.
Import PyStr OsPath OsPathMore.
Local Open Scope Z_scope.

Lemma rfind_last_split c s :
  c ∈ s → ∃ a b, s = a ++ c :: b ∧ (c ∉ b) ∧ rfind c s = Z.of_nat (length a).
Proof.
  intros (a & b & -> & Hb)%list_elem_of_split_r.
  exists a, b. split_and!; [done..|].
  rewrite PathFacts.rfind_app, bool_decide_eq_true_2 by (by left).
  change (c :: b) with ([c] ++ b).
  rewrite PathFacts.rfind_app, bool_decide_eq_false_2 by done.
  change (rfind c [c]) with (if (c =? c)%N then 0 else -1).
  rewrite N.eqb_refl. lia.
Qed.

(** A path is its directory part, which is empty or ends with the
    separator, followed by its base name, which has no separator. *)
Lemma basename_split p :
  ∃ pre, p = pre ++ basename p ∧ (sep ∉ basename p)
         ∧ (pre = [] ∨ ∃ a, pre = a ++ [sep]).
Proof.
  unfold basename. destruct (decide (sep ∈ p)) as [Hin|Hnotin].
  - destruct (rfind_last_split sep p Hin) as (a & b & -> & Hb & ->).
    exists (a ++ [sep]). replace (Z.to_nat (Z.of_nat (length a) + 1))
      with (length (a ++ [sep])) by (rewrite length_app; simpl; lia).
    rewrite (cons_middle sep a b), app_assoc, drop_app_length.
    split_and!; [done..|]. right. by exists a.
  - rewrite PathFacts.rfind_absent by done. exists []. simpl.
    split_and!; [done..|by left].
Qed.

Lemma basename_no_sep p : sep ∉ p → basename p = p.
Proof.
  intros Hp. unfold basename. by rewrite PathFacts.rfind_absent.
Qed.

Lemma basename_after_dir a b : sep ∉ b → basename ((a ++ [sep]) ++ b) = b.
Proof.
  intros Hb. unfold basename. rewrite PathFacts.rfind_sep_after_dir.
  rewrite (PathFacts.rfind_absent sep b) by done.
  replace (Z.to_nat (Z.of_nat (length (a ++ [sep])) + -1 + 1))
    with (length (a ++ [sep])) by lia.
  apply drop_app_length.
Qed.

Lemma startswith_elem c s : startswith c s = true → c ∈ s.
Proof.
  destruct s as [|x s]; [done|]. simpl. intros ->%N.eqb_eq. by left.
Qed.

(** The path joined from a directory and a name is a prefix that is
    empty or ends with the separator, followed by the name. *)
Lemma join_split root filename :
  sep ∉ filename →
  ∃ pre, join root filename = pre ++ filename
         ∧ (pre = [] ∨ ∃ a, pre = a ++ [sep]).
Proof.
  intros Hsep. unfold join.
  destruct (startswith sep filename) eqn:Hstart;
    [by apply startswith_elem in Hstart|].
  case_bool_decide as Hroot; simpl.
  - subst. exists []. split; [done|by left].
  - destruct (endswith sep root) eqn:Hend.
    + apply PathFacts.endswith_inv in Hend as [a ->].
      exists (a ++ [sep]). split; [done|]. right. by exists a.
    + exists (root ++ [sep]). split; [by rewrite <-app_assoc|].
      right. by exists root.
Qed.

Lemma basename_join root filename :
  sep ∉ filename → basename (join root filename) = filename.
Proof.
  intros Hsep. destruct (join_split root filename Hsep) as (pre & -> & Hpre).
  destruct Hpre as [->|[a ->]].
  - by apply basename_no_sep.
  - by apply basename_after_dir.
Qed.

(** The extension of a path is that of its base name. *)
Lemma splitext_basename p : (splitext (basename p)).2 = (splitext p).2.
Proof.
  destruct (basename_split p) as (pre & Hp & Hsep & [->|[a ->]]).
  - simpl in Hp. by rewrite <-Hp.
  - rewrite Hp at 2. symmetry. apply PathFacts.splitext_after_dir.
Qed.

(** The two parts of a name [stem.ext]. *)
Lemma splitext_stem_ext stem ext :
  sep ∉ stem → sep ∉ ext → extsep ∉ ext →
  (∃ c, c ∈ stem ∧ c ≠ extsep) →
  splitext (stem ++ extsep :: ext) = (stem, extsep :: ext).
Proof.
  intros Hstem Hext Hdot (c & Hc & Hne). unfold splitext.
  assert (sep ∉ stem ++ extsep :: ext) as Hsep.
  { rewrite elem_of_app, elem_of_cons. intros [?|[?|?]]; done. }
  rewrite (PathFacts.rfind_absent sep) by done.
  rewrite PathFacts.rfind_app, bool_decide_eq_true_2 by (by left).
  change (extsep :: ext) with ([extsep] ++ ext).
  rewrite (PathFacts.rfind_app extsep [extsep] ext),
    bool_decide_eq_false_2 by done.
  change (rfind extsep [extsep]) with 0.
  rewrite Z.add_0_r. rewrite (proj2 (Z.ltb_lt _ _)) by lia.
  change (Z.to_nat (-1 + 1)) with 0%nat. rewrite Nat2Z.id.
  unfold PyBytes.slice. rewrite drop_0, Nat.sub_0_r, take_app_length.
  rewrite drop_app_length.
  destruct (forallb (λ x, (x =? extsep)%N) stem) eqn:Hall; [|done].
  exfalso. apply Hne. rewrite forallb_forall in Hall.
  apply N.eqb_eq, Hall. by apply list_elem_of_In.
Qed.

Lemma rstrip_sep_after root :
  endswith sep root = false → root ≠ [] → rstrip [sep] (root ++ [sep]) = root.
Proof.
  intros Hend Hroot. unfold rstrip, endswith, startswith in *.
  rewrite reverse_snoc. cbn [lstrip].
  rewrite bool_decide_eq_true_2 by (by left).
  destruct (reverse root) as [|x r] eqn:Hr.
  - apply (f_equal reverse) in Hr. rewrite reverse_involutive in Hr. done.
  - cbn [lstrip]. rewrite bool_decide_eq_false_2.
    + by rewrite <-Hr, reverse_involutive.
    + intros ->%list_elem_of_singleton. by rewrite N.eqb_refl in Hend.
Qed.

(** The directory part of a path joined from a directory that does not
    end with the separator is that directory. *)
Lemma dirname_join root filename :
  sep ∉ filename → endswith sep root = false →
  dirname (join root filename) = root.
Proof.
  intros Hsep Hend. unfold join.
  destruct (startswith sep filename) eqn:Hstart;
    [by apply startswith_elem in Hstart|].
  rewrite Hend, orb_false_r. case_bool_decide as Hroot.
  - subst. unfold dirname.
    by rewrite PathFacts.rfind_absent.
  - unfold dirname.
    replace (root ++ sep :: filename) with ((root ++ [sep]) ++ filename)
      by (by rewrite <-app_assoc).
    rewrite PathFacts.rfind_sep_after_dir,
      (PathFacts.rfind_absent sep filename) by done.
    replace (Z.to_nat (Z.of_nat (length (root ++ [sep])) + -1 + 1))
      with (length (root ++ [sep])) by lia.
    rewrite take_app_length.
    rewrite (bool_decide_eq_false_2 (_ = [])) by (by destruct root).
    rewrite bool_decide_eq_false_2; [by apply rstrip_sep_after|].
    intros Hall. unfold endswith, startswith in Hend.
    destruct (reverse root) as [|x r] eqn:Hr.
    + apply (f_equal reverse) in Hr. by rewrite reverse_involutive in Hr.
    + assert (x ∈ root ++ [sep]) as Hx.
      { apply elem_of_app. left. apply elem_of_reverse. rewrite Hr. by left. }
      rewrite Hall in Hx. apply elem_of_replicate_inv in Hx.
      subst x. by rewrite N.eqb_refl in Hend.
Qed.

Lemma endswith_app_suffix stem ext :
  PyStrMore.endswith ext (stem ++ ext) = true.
Proof.
  unfold PyStrMore.endswith. apply bool_decide_eq_true_2.
  rewrite length_app. split; [lia|].
  replace (length stem + length ext - length ext)%nat with (length stem) by lia.
  apply drop_app_length.
Qed.

End KeyFacts.

Section consumers.
Context {ts : TreeSitter}.
Context (cpp_lang_obj : language) (cpp_parser : parser).

(** X13. For a header [stem.h] indexed in a directory, the pairing of
    [generate_interdocs.py] looks up the key [stem.cpp] in the same
    directory, which is the key the indexer gives to that file: when the
    walk yields both files in the directory, the pair is found. *)
Theorem header_is_paired_with_its_sibling (fs : FileSystem)
    (root : pystr) (files : list pystr) (stem : pystr) :
  PyStr.endswith OsPath.sep root = false →
  OsPath.sep ∉ stem →
  (∃ c, c ∈ stem ∧ c ≠ OsPath.extsep) →
  Interdocs.potential_cpp_key (OsPath.join root (stem ++ py ".h"))
  = Some (OsPath.join root (stem ++ py ".cpp"))
  ∧ ((root, files) ∈ os_walk fs SRC_DIR → stem ++ py ".cpp" ∈ files →
     is_Some (Dict.get (OsPath.join root (stem ++ py ".cpp"))
                (index_of fs cpp_lang_obj cpp_parser))).
Proof.
  intros Hroot Hstem Hchar.
  assert (∀ ext, OsPath.sep ∉ ext → OsPath.sep ∉ stem ++ OsPath.extsep :: ext)
    as Hsep.
  { intros ext Hext. rewrite elem_of_app, elem_of_cons.
    intros [?|[?|?]]; done. }
  split.
  - unfold Interdocs.potential_cpp_key.
    change (py ".h") with (OsPath.extsep :: py "h").
    rewrite KeyFacts.basename_join by (apply Hsep; by_compute).
    rewrite KeyFacts.splitext_stem_ext; [|done|by_compute|by_compute|done].
    rewrite bool_decide_eq_true_2 by done.
    rewrite KeyFacts.dirname_join; [done|apply Hsep; by_compute|done].
  - intros Hwalk Hfile. rewrite index_lookup, bool_decide_eq_true_2; [done|].
    split; [by eapply elem_of_visited_paths|].
    rewrite PathFacts.extension_join. unfold extension_of.
    change (py ".cpp") with (OsPath.extsep :: py "cpp").
    rewrite KeyFacts.splitext_stem_ext; [|done|by_compute|by_compute|done].
    by_compute.
Qed.

(** X14. Every key of the index passes the extension test of the
    standalone strategy of [generate_interdocs.py]: that stage reads the
    extension off the base name of the key, and finds the extension the
    indexer found on the file name. *)
Theorem index_keys_are_standalone_candidates (fs : FileSystem) (q : pystr) :
  q ∈ Dict.keys (index_of fs cpp_lang_obj cpp_parser) →
  Interdocs.is_standalone_candidate q = true.
Proof.
  intros Hq. apply DictFacts.elem_of_keys in Hq as [record Hq].
  rewrite index_lookup in Hq. case_bool_decide as Hcond; [|done].
  destruct Hcond as [_ Hext].
  unfold Interdocs.is_standalone_candidate. apply bool_decide_eq_true_2.
  by rewrite KeyFacts.splitext_basename.
Qed.

End consumers.

Lemma header_is_paired_with_its_sibling_witness :
  let fs := Fixtures.tree_fs [(py "./src", [py "a.h"; py "a.cpp"])]
              [(py "./src/a.h", Ok []); (py "./src/a.cpp", Ok [])] in
  Interdocs.potential_cpp_key (OsPath.join (py "./src") (py "a" ++ py ".h"))
  = Some (OsPath.join (py "./src") (py "a" ++ py ".cpp"))
  ∧ is_Some (Dict.get (OsPath.join (py "./src") (py "a" ++ py ".cpp"))
               (@index_of Fixtures.silent_engine fs tt tt)).
Proof.
  intros fs.
  destruct (@header_is_paired_with_its_sibling Fixtures.silent_engine tt tt
              fs (py "./src") [py "a.h"; py "a.cpp"] (py "a"))
    as [Hkey Hfound].
  - by_compute.
  - by_compute.
  - exists 97. split; by_compute.
  - split; [exact Hkey|]. apply Hfound; by_compute.
Defined.

Lemma index_keys_are_standalone_candidates_witness :
  Interdocs.is_standalone_candidate (py "./src/a.h") = true.
Proof.
  apply (@index_keys_are_standalone_candidates Fixtures.silent_engine tt tt
           Fixtures.mixed_fs (py "./src/a.h")).
  by_compute.
Defined.

(** X15. The notes of an indexed file are read from where they are
    written: for a file name without separator, the path
    [generate_interdocs.py] reads the notes of the key from is the path
    [annotate_files.py] writes the notes of the file to. *)
Theorem notes_are_read_where_written (root filename : pystr) :
  OsPath.sep ∉ filename →
  Interdocs.md_path (OsPathMore.basename (OsPath.join root filename))
  = Annotate.output_md_path filename.
Proof.
  intros Hsep. rewrite KeyFacts.basename_join by done. reflexivity.
Qed.

Lemma notes_are_read_where_written_witness :
  Interdocs.md_path (OsPathMore.basename (OsPath.join (py "./src") (py "a.h")))
  = py "./file_notes/a.h.md".
Proof.
  rewrite (notes_are_read_where_written (py "./src") (py "a.h"));
    [vm_compute; reflexivity|by_compute].
Defined.

(** X16. Every file the indexer records is a file [annotate_files.py]
    selects for notes: a name whose extension is [.h], [.cpp] or [.i]
    ends with that extension. The converse fails for a name that is only
    an extension, such as [.h], which is selected for notes and not
    indexed. *)
Theorem indexed_files_are_selected_for_notes (filename : pystr) :
  (extension_of filename ∈ VALID_CPP_EXTENSIONS →
   Annotate.is_selected filename = true)
  ∧ Annotate.is_selected (py ".h") = true
  ∧ extension_of (py ".h") ∉ VALID_CPP_EXTENSIONS.
Proof.
  split_and!; [|by_compute..].
  intros Hext.
  assert (extension_of filename ∈ elements Annotate.VALID_EXTENSIONS) as Hin.
  { unfold VALID_CPP_EXTENSIONS in Hext.
    rewrite !elem_of_union, !elem_of_singleton in Hext.
    destruct Hext as [[Hext|Hext]|Hext]; rewrite Hext; by_compute. }
  unfold Annotate.is_selected. apply existsb_exists.
  exists (extension_of filename). split.
  - exact (proj1 (list_elem_of_In _ _) Hin).
  - rewrite <-(SplitextFacts.splitext_parts filename) at 2.
    apply KeyFacts.endswith_app_suffix.
Qed.

(** ** The text handed to the overview prompt *)

Module LoaderFacts.
Import HighLevel.

Lemma foldl_load_step_ext fs1 fs2 directory names acc :
  (∀ filename, filename ∈ names →
     read_text fs1 (OsPath.join directory filename)
     = read_text fs2 (OsPath.join directory filename)) →
  foldl (load_step fs1 directory) acc names
  = foldl (load_step fs2 directory) acc names.
Proof.
  revert acc. induction names as [|filename names IH]; intros acc Hread;
    [done|].
  cbn [foldl]. rewrite IH by (intros; apply Hread; by right).
  f_equal. unfold load_step. rewrite Hread by (by left). done.
Qed.

End LoaderFacts.

(** X17. The text [load_all_markdown_from_dir] returns, and what it
    prints, do not depend on the order in which [os.listdir] lists the
    directory: the names are sorted before they are read. *)
Theorem loaded_markdown_ignores_listing_order
    (fs1 fs2 : HighLevel.TextFiles) (directory : pystr)
    (names1 names2 : list pystr) :
  HighLevel.dir_exists fs1 directory = HighLevel.dir_exists fs2 directory →
  HighLevel.listdir fs1 directory = Ok names1 →
  HighLevel.listdir fs2 directory = Ok names2 →
  names1 ≡ₚ names2 →
  (∀ filename, filename ∈ names1 →
     HighLevel.read_text fs1 (OsPath.join directory filename)
     = HighLevel.read_text fs2 (OsPath.join directory filename)) →
  HighLevel.load_all_markdown_from_dir fs1 directory
  = HighLevel.load_all_markdown_from_dir fs2 directory.
Proof.
  intros Hexists Hlist1 Hlist2 Hperm Hread.
  unfold HighLevel.load_all_markdown_from_dir.
  rewrite Hexists, Hlist1, Hlist2, <-(sorted_perm_eq _ _ Hperm).
  rewrite (LoaderFacts.foldl_load_step_ext fs1 fs2); [done|].
  intros filename Hin. apply Hread.
  by rewrite <-(sorted_Permutation names1).
Qed.

Lemma loaded_markdown_ignores_listing_order_witness :
  HighLevel.load_all_markdown_from_dir
    (notes_files [py "b.h.md"; py "a.h.md"; py "README"]) (py "./file_notes")
  = HighLevel.load_all_markdown_from_dir
      (notes_files [py "README"; py "a.h.md"; py "b.h.md"])
      (py "./file_notes").
Proof.
  apply (loaded_markdown_ignores_listing_order
           (notes_files [py "b.h.md"; py "a.h.md"; py "README"])
           (notes_files [py "README"; py "a.h.md"; py "b.h.md"])
           (py "./file_notes")
           [py "b.h.md"; py "a.h.md"; py "README"]
           [py "README"; py "a.h.md"; py "b.h.md"]).
  - reflexivity.
  - reflexivity.
  - reflexivity.
  - by_compute.
  - reflexivity.
Defined.

Module TruncationFacts.
Import HighLevel PyStrMore.
Local Open Scope Z_scope.

Lemma length_slice_to k s :
  Z.of_nat (length (slice_to k s))
  = if k <? 0 then Z.max 0 (Z.of_nat (length s) + k)
    else Z.min k (Z.of_nat (length s)).
Proof.
  unfold slice_to. destruct (Z.ltb_spec k 0); rewrite length_take; lia.
Qed.

Lemma slice_to_prefix k s : slice_to k s `prefix_of` s.
Proof.
  unfold slice_to. destruct (k <? 0); apply prefix_take.
Qed.

(** The sections of the prompt: the third and the fifth are the loaded
    texts, the second and the fourth are fixed headings. *)
Lemma prompt_sections_shape r i f :
  ∃ s0 s1 s3,
    prompt_sections r i f = (s0, s1, i, s3, f)
    ∧ length s3 = 27%nat.
Proof.
  eexists _, _, _. split; [reflexivity|]. vm_compute. reflexivity.
Qed.

Ltac split_budget :=
  repeat (match goal with
          | |- context [Z.leb ?a ?b] => destruct (Z.leb_spec a b)
          | |- context [Z.ltb ?a ?b] => destruct (Z.ltb_spec a b)
          | |- context [Nat.ltb ?a ?b] => destruct (Nat.ltb_spec a b)
          end; simpl in *).

Ltac measure_text :=
  repeat first [rewrite length_app | rewrite length_cons
               | rewrite Nat2Z.inj_add | rewrite Nat2Z.inj_succ
               | rewrite length_slice_to];
  repeat match goal with
         | |- context [Z.ltb ?a ?b] => destruct (Z.ltb_spec a b)
         end.

(** The budget does not depend on what was printed before. *)
Lemma budget_warnings s0 s1 s2 max w w' :
  let b w := keep_intermediate s2
               (keep_structure s0 s1
                  {| truncated_sections := []; chars_left := max;
                     warnings := w |}) in
  chars_left (b w) = chars_left (b w')
  ∧ truncated_sections (b w) = truncated_sections (b w').
Proof.
  intros b. unfold b, keep_intermediate, keep_structure.
  cbn [truncated_sections chars_left warnings].
  destruct (_ <=? max); simpl.
  - destruct (_ && _); simpl; [destruct (_ <=? _)|]; done.
  - done.
Qed.

(** The length of the truncated text, for any sections and any limit. *)
Lemma truncated_length max s0 s1 s2 s3 s4 w :
  0 ≤ max → (0 < length s3)%nat →
  let b2 := keep_intermediate s2
              (keep_structure s0 s1
                 {| truncated_sections := []; chars_left := max;
                    warnings := w |}) in
  let n := Z.of_nat (length (join [10%N; 10%N]
                               (truncated_sections (keep_notes s3 s4 b2)))) in
  (chars_left b2 ≤ 0 ∨ s4 = [] ∨ Z.of_nat (length s3) + 2 ≤ chars_left b2 →
   n ≤ max)
  ∧ (0 < chars_left b2 < Z.of_nat (length s3) + 2 → s4 ≠ [] →
     n = max + Z.max (Z.of_nat (length s3) + 2 - chars_left b2)
                     (Z.of_nat (length s4))).
Proof.
  intros Hmax Hs3 b2 n.
  assert (s4 = [] ↔ length s4 = 0%nat) as Hs4
    by (destruct s4; cbn [length]; split; (done || lia)).
  rewrite Hs4. unfold n, b2, keep_notes, keep_intermediate, keep_structure.
  simpl. split_budget.
  all: split; intros; measure_text; try lia.
Qed.

(** In the window where the overflow occurs the text was too long, so
    the truncation runs. *)
Lemma window_is_reached max s0 s1 s2 s3 s4 w :
  let b2 := keep_intermediate s2
              (keep_structure s0 s1
                 {| truncated_sections := []; chars_left := max;
                    warnings := w |}) in
  0 < chars_left b2 < Z.of_nat (length s3) + 2 →
  max < Z.of_nat (length (join [10%N; 10%N] [s0; s1; s2; s3; s4])).
Proof.
  intros b2. unfold b2, keep_intermediate, keep_structure.
  simpl. split_budget.
  all: intros; measure_text; try lia.
Qed.

Ltac extend_prefix :=
  repeat first [apply prefix_app | apply prefix_cons];
  first [done | apply prefix_nil | by apply prefix_app_r
        | apply prefix_app_r, slice_to_prefix | apply slice_to_prefix
        | by apply prefix_cons_alt | idtac].

(** With a third section that is not empty, the truncation cuts a tail
    off the text. *)
Lemma truncated_prefix max s0 s1 s2 s3 s4 w :
  s2 ≠ [] →
  join [10%N; 10%N]
    (truncated_sections
       (keep_notes s3 s4
          (keep_intermediate s2
             (keep_structure s0 s1
                {| truncated_sections := []; chars_left := max;
                   warnings := w |}))))
  `prefix_of` join [10%N; 10%N] [s0; s1; s2; s3; s4].
Proof.
  intros Hs2. assert (0 < length s2)%nat by (destruct s2; simpl; [done|lia]).
  unfold keep_notes, keep_intermediate, keep_structure.
  simpl. split_budget; try lia.
  all: extend_prefix.
Qed.

(** The text [main] builds, in terms of the sections. *)
Lemma combined_input_text_sections max r i f :
  ∃ s0 s1 s3 w,
    length s3 = 27%nat
    ∧ untruncated_text r i f = join [10%N; 10%N] [s0; s1; i; s3; f]
    ∧ budget_before_notes max r i f
      = chars_left
          (keep_intermediate i
             (keep_structure s0 s1
                {| truncated_sections := []; chars_left := max;
                   warnings := w |}))
    ∧ (combined_input_text max r i f).2
      = if max <? Z.of_nat (length (untruncated_text r i f))
        then join [10%N; 10%N]
               (truncated_sections
                  (keep_notes s3 f
                     (keep_intermediate i
                        (keep_structure s0 s1
                           {| truncated_sections := []; chars_left := max;
                              warnings := w |}))))
        else untruncated_text r i f.
Proof.
  destruct (prompt_sections_shape r i f) as (s0 & s1 & s3 & Heq & Hlen).
  exists s0, s1, s3,
    [InputTooLong (length (join [10%N; 10%N] [s0; s1; i; s3; f]))].
  unfold untruncated_text, budget_before_notes, combined_input_text.
  rewrite Heq. split_and!; [done|done| |].
  - apply (budget_warnings s0 s1 i max).
  - by destruct (_ <? _).
Qed.

End TruncationFacts.

(** X18. When the text is too long for the limit, the truncated text has
    at most [max_chars] characters, provided the budget left when the
    truncation reaches the notes is not in the window from 1 to 28 (or
    there are no notes). The limit of [main] is
    [MAX_PROMPT_CHARS_APPROX]. *)
Theorem truncated_text_within_limit (max_chars : Z) (r i f : pystr) :
  (0 ≤ max_chars)%Z →
  (max_chars < Z.of_nat (length (untruncated_text r i f)))%Z →
  (budget_before_notes max_chars r i f ≤ 0)%Z ∨ f = []
  ∨ (29 ≤ budget_before_notes max_chars r i f)%Z →
  (Z.of_nat (length (HighLevel.combined_input_text max_chars r i f).2)
   ≤ max_chars)%Z.
Proof.
  intros Hmax Hlong Hbudget.
  destruct (TruncationFacts.combined_input_text_sections max_chars r i f)
    as (s0 & s1 & s3 & w & Hs3 & _ & Hb & ->).
  rewrite (proj2 (Z.ltb_lt _ _) Hlong).
  apply TruncationFacts.truncated_length; [done|lia|].
  rewrite <-Hb, Hs3. exact Hbudget.
Qed.

(** X19. When the budget left on reaching the notes is between 1 and 28
    and there are notes, the heading of the notes alone exceeds the
    budget: [chars_left] becomes negative, the slice [content[:chars_left]]
    then drops that many characters from the end of the notes instead of
    keeping none, and the text exceeds the limit by [29 - budget]
    characters or by the length of the notes, whichever is larger. *)
Theorem truncated_text_exceeds_limit (max_chars : Z) (r i f : pystr) :
  (0 ≤ max_chars)%Z →
  (0 < budget_before_notes max_chars r i f < 29)%Z →
  f ≠ [] →
  (max_chars < Z.of_nat (length (untruncated_text r i f)))%Z
  ∧ Z.of_nat (length (HighLevel.combined_input_text max_chars r i f).2)
    = (max_chars
       + Z.max (29 - budget_before_notes max_chars r i f)
               (Z.of_nat (length f)))%Z.
Proof.
  intros Hmax Hbudget Hf.
  destruct (TruncationFacts.combined_input_text_sections max_chars r i f)
    as (s0 & s1 & s3 & w & Hs3 & Htext & Hb & ->).
  assert (max_chars < Z.of_nat (length (untruncated_text r i f)))%Z as Hlong.
  { rewrite Htext. apply (TruncationFacts.window_is_reached _ _ _ _ _ _ w).
    rewrite <-Hb, Hs3. exact Hbudget. }
  split; [done|]. rewrite (proj2 (Z.ltb_lt _ _) Hlong), Hb.
  replace 29%Z with (Z.of_nat (length s3) + 2)%Z by lia.
  apply TruncationFacts.truncated_length; [done|lia| |done].
  rewrite <-Hb, Hs3. exact Hbudget.
Qed.

(** X20. With intermediate documentation that is not empty, the text put
    into the prompt is a prefix of the untruncated text: the truncation
    drops a tail and nothing from the middle. *)
Theorem truncation_keeps_a_prefix (max_chars : Z) (r i f : pystr) :
  i ≠ [] →
  (HighLevel.combined_input_text max_chars r i f).2
  `prefix_of` untruncated_text r i f.
Proof.
  intros Hi.
  destruct (TruncationFacts.combined_input_text_sections max_chars r i f)
    as (s0 & s1 & s3 & w & _ & Htext & _ & ->).
  destruct (_ <? _)%Z; [|done].
  rewrite Htext. by apply TruncationFacts.truncated_prefix.
Qed.

Lemma truncated_text_within_limit_witness :
  (Z.of_nat
     (length (HighLevel.combined_input_text 130 (py "{}") (py "0123456789")
                (py "notes on a.h and b.h")).2)
   ≤ 130)%Z.
Proof.
  apply (truncated_text_within_limit 130 (py "{}") (py "0123456789")
           (py "notes on a.h and b.h")).
  - by_compute.
  - by_compute.
  - right; right. by_compute.
Defined.

Lemma truncated_text_exceeds_limit_witness :
  (100 < Z.of_nat (length (untruncated_text (py "{}") [] (py "notes"))))%Z
  ∧ Z.of_nat
      (length (HighLevel.combined_input_text 100 (py "{}") [] (py "notes")).2)
    = (100 + Z.max (29 - budget_before_notes 100 (py "{}") [] (py "notes"))
                   (Z.of_nat (length (py "notes"))))%Z.
Proof.
  apply (truncated_text_exceeds_limit 100 (py "{}") [] (py "notes")).
  - by_compute.
  - by_compute.
  - by_compute.
Defined.

Lemma truncation_keeps_a_prefix_witness :
  (HighLevel.combined_input_text 130 (py "{}") (py "0123456789")
     (py "notes on a.h and b.h")).2
  `prefix_of` untruncated_text (py "{}") (py "0123456789")
                (py "notes on a.h and b.h").
Proof.
  apply (truncation_keeps_a_prefix 130 (py "{}") (py "0123456789")
           (py "notes on a.h and b.h")).
  by_compute.
Defined.
